(** * go-identity-server: token lifecycle and provisioning pipeline

    A shallow embedding of [token-service.go], [vm-service.go], the user
    service and the handlers of [server.go] (package [main]) together with
    the properties of the services.

    Conventions of the embedding:
    - a Go function returning [(T, error)] returns a pair of options here
      ([nil] is [None]); a run-time panic is the [Panic] outcome of [result];
    - the wall clock ([time.Now], [jwt.TimeFunc]) and the UUID generator
      ([uuid.New], [uuid.NewString]) are inputs of the operations: the
      current Unix time is an argument [now : Z], a drawn UUID an argument of
      type [string];
    - the receiver [t *tokenService] / [s *vmService] is passed in and the
      updated receiver is returned (explicit state passing);
    - [github.com/golang-jwt/jwt/v4] is an external dependency.  Module [jwt]
      models the part of it the services call, symbolically: a compact token
      is represented by what its three segments decode to, and an HMAC tag by
      the method, key and signing input it was computed from. *)

From Stdlib Require Import ZArith.
From stdpp Require Import gmap strings list fin_maps.

Local Open Scope Z_scope.
Local Open Scope string_scope.

(** ** Go values and outcomes *)

(** A value of type [interface{}] as [encoding/json] produces it inside a
    [map[string]interface{}].  JSON numbers are kept as integers (the claims
    the services read and write are Unix seconds); arrays and objects are kept
    as their JSON text. *)
Inductive Value : Type :=
  | VString (s : string)
  | VNumber (n : Z)
  | VBool (b : bool)
  | VNull
  | VOther (json : string).

#[global] Instance Value_eq_dec : EqDecision Value.
Proof. solve_decision. Defined.

(** Outcome of a Go call: it returns, or it panics. *)
Inductive result (A : Type) : Type :=
  | Return (a : A)
  | Panic (v : string).
Arguments Return {A} a.
Arguments Panic {A} v.

#[global] Instance result_ret : MRet result := fun A a => Return a.
#[global] Instance result_bind : MBind result := fun A B f m =>
  match m with
  | Return a => f a
  | Panic v => Panic v
  end.

(** The type assertion [v.(string)] on the result of a map index expression:
    an absent key yields the nil interface, and the single-value form of the
    assertion panics on anything that is not a string. *)
Definition assert_string (v : option Value) : result string :=
  match v with
  | Some (VString s) => Return s
  | Some _ => Panic "interface conversion: interface {} is not string"
  | None => Panic "interface conversion: interface {} is nil, not string"
  end.

(** Go's [error]: either a [*jwt.ValidationError] (its [Inner] message and its
    [Errors] bit field) or the value of [fmt.Errorf] / [errors.New]. *)
Inductive error : Type :=
  | ValidationError (Inner : string) (Errors : Z)
  | errorString (s : string).

#[global] Instance error_eq_dec : EqDecision error.
Proof. solve_decision. Defined.

(** ** golang-jwt v4

    Modelled from the spec: golang-jwt is a dependency and not among the
    sources.  The checks of [Parse] and their order are those section 4.1 of
    the specification gives for verification: the structure of the token
    first, then the declared algorithm and the signature, then the expiry.
    The details follow the documentation of version 4 of the library: a token
    is expired once the clock is at or past its ["exp"], except that a token
    without ["exp"] or with an ["exp"] of 0 never expires; the ["iat"] and
    ["nbf"] claims; the error flags and messages. *)
Module jwt.

Abbreviation MapClaims := (gmap string Value).

(** The [ValidationError*] flags ([1 << iota]). *)
Definition ValidationErrorMalformed : Z := Z.shiftl 1 0.
Definition ValidationErrorUnverifiable : Z := Z.shiftl 1 1.
Definition ValidationErrorSignatureInvalid : Z := Z.shiftl 1 2.
Definition ValidationErrorAudience : Z := Z.shiftl 1 3.
Definition ValidationErrorExpired : Z := Z.shiftl 1 4.
Definition ValidationErrorIssuedAt : Z := Z.shiftl 1 5.
Definition ValidationErrorIssuer : Z := Z.shiftl 1 6.
Definition ValidationErrorNotValidYet : Z := Z.shiftl 1 7.
Definition ValidationErrorId : Z := Z.shiftl 1 8.
Definition ValidationErrorClaimsInvalid : Z := Z.shiftl 1 9.

Inductive Hash : Type := SHA256 | SHA384 | SHA512.

(** The registered signing methods, by their Go type. *)
Inductive SigningMethod : Type :=
  | SigningMethodHMAC (h : Hash)
  | SigningMethodRSA (h : Hash)
  | SigningMethodRSAPSS (h : Hash)
  | SigningMethodECDSA (h : Hash)
  | SigningMethodEd25519
  | signingMethodNone.

#[global] Instance Hash_eq_dec : EqDecision Hash.
Proof. solve_decision. Defined.
#[global] Instance SigningMethod_eq_dec : EqDecision SigningMethod.
Proof. solve_decision. Defined.

Definition SigningMethodHS256 : SigningMethod := SigningMethodHMAC SHA256.

Definition Alg (m : SigningMethod) : string :=
  match m with
  | SigningMethodHMAC SHA256 => "HS256"
  | SigningMethodHMAC SHA384 => "HS384"
  | SigningMethodHMAC SHA512 => "HS512"
  | SigningMethodRSA SHA256 => "RS256"
  | SigningMethodRSA SHA384 => "RS384"
  | SigningMethodRSA SHA512 => "RS512"
  | SigningMethodRSAPSS SHA256 => "PS256"
  | SigningMethodRSAPSS SHA384 => "PS384"
  | SigningMethodRSAPSS SHA512 => "PS512"
  | SigningMethodECDSA SHA256 => "ES256"
  | SigningMethodECDSA SHA384 => "ES384"
  | SigningMethodECDSA SHA512 => "ES512"
  | SigningMethodEd25519 => "EdDSA"
  | signingMethodNone => "none"
  end.

Definition signingMethods : list SigningMethod :=
  [ SigningMethodHMAC SHA256; SigningMethodHMAC SHA384; SigningMethodHMAC SHA512;
    SigningMethodRSA SHA256; SigningMethodRSA SHA384; SigningMethodRSA SHA512;
    SigningMethodRSAPSS SHA256; SigningMethodRSAPSS SHA384; SigningMethodRSAPSS SHA512;
    SigningMethodECDSA SHA256; SigningMethodECDSA SHA384; SigningMethodECDSA SHA512;
    SigningMethodEd25519; signingMethodNone ].

(** [GetSigningMethod]: look an [alg] header value up among the registered
    methods. *)
Definition GetSigningMethod (alg : string) : option SigningMethod :=
  List.find (fun m => bool_decide (Alg m = alg)) signingMethods.

(** The third segment of a compact token.  [MAC m key alg claims] is the tag
    that method [m] computes with [key] over the signing input made of a
    header declaring [alg] and of [claims]; [SigBytes raw] is any other
    third segment (empty, truncated, random, not base64url). *)
Inductive Signature : Type :=
  | MAC (m : SigningMethod) (key : string) (alg : option string) (claims : MapClaims)
  | SigBytes (raw : string).

#[global] Instance Signature_eq_dec : EqDecision Signature.
Proof. solve_decision. Defined.

(** A token string as the parser sees it: [Malformed raw] does not consist
    of three segments whose first two decode to JSON objects; [Compact alg
    claims sig] does, with the header's ["alg"] entry ([None] when it is
    absent or not a string), the claims object and the third segment. *)
Inductive TokenString : Type :=
  | Malformed (raw : string)
  | Compact (alg : option string) (claims : MapClaims) (sig : Signature).

Record Token : Type := mkToken {
  Method : SigningMethod;
  Header_alg : option string;
  Claims : MapClaims;
  Signature_ : option Signature;
  Valid : bool
}.

(** [Keyfunc]: the callback that hands the verification key (here always a
    [[]byte]) to the parser, or refuses. *)
Definition Keyfunc : Type := Token → option string * option error.

(** [jwt.New(method)]. *)
Definition New (method : SigningMethod) : Token :=
  {| Method := method; Header_alg := Some (Alg method); Claims := ∅;
     Signature_ := None; Valid := false |}.

Definition set_claim (k : string) (v : Value) (token : Token) : Token :=
  {| Method := Method token; Header_alg := Header_alg token;
     Claims := <[k := v]> (Claims token);
     Signature_ := Signature_ token; Valid := Valid token |}.

(** [method.Sign(signingInput, key)] and [method.Verify(signingInput, sig,
    key)] for a [[]byte] key.  Only the HMAC methods accept such a key. *)
Definition Sign (m : SigningMethod) (alg : option string) (claims : MapClaims)
    (key : string) : option Signature * option error :=
  match m with
  | SigningMethodHMAC _ => (Some (MAC m key alg claims), None)
  | _ => (None, Some (errorString "key is of invalid type"))
  end.

Definition Verify (m : SigningMethod) (alg : option string) (claims : MapClaims)
    (sig : Signature) (key : string) : bool :=
  match m with
  | SigningMethodHMAC _ => bool_decide (sig = MAC m key alg claims)
  | _ => false
  end.

(** [token.SignedString(key)]. *)
Definition SignedString (token : Token) (key : string) : option TokenString * option error :=
  match Sign (Method token) (Header_alg token) (Claims token) key with
  | (Some sig, None) => (Some (Compact (Header_alg token) (Claims token) sig), None)
  | (_, err) => (None, err)
  end.

(** [MapClaims.VerifyExpiresAt], [VerifyIssuedAt], [VerifyNotBefore] with
    [req = false]: an absent claim passes, and so does a claim equal to 0,
    which the library reads as an absent one. *)
Definition VerifyExpiresAt (m : MapClaims) (cmp : Z) : bool :=
  match m !! "exp" with
  | None => true
  | Some (VNumber exp) => if bool_decide (exp = 0) then true else bool_decide (cmp < exp)%Z
  | Some _ => false
  end.

Definition VerifyIssuedAt (m : MapClaims) (cmp : Z) : bool :=
  match m !! "iat" with
  | None => true
  | Some (VNumber iat) => if bool_decide (iat = 0) then true else bool_decide (iat ≤ cmp)%Z
  | Some _ => false
  end.

Definition VerifyNotBefore (m : MapClaims) (cmp : Z) : bool :=
  match m !! "nbf" with
  | None => true
  | Some (VNumber nbf) => if bool_decide (nbf = 0) then true else bool_decide (nbf ≤ cmp)%Z
  | Some _ => false
  end.

(** [MapClaims.Valid()]: the three time checks, their flags or-ed together. *)
Definition MapClaims_Valid (now : Z) (m : MapClaims) : option error :=
  let '(inner, errs) := ("", 0) in
  let '(inner, errs) :=
    if negb (VerifyExpiresAt m now)
    then ("Token is expired", Z.lor errs ValidationErrorExpired) else (inner, errs) in
  let '(inner, errs) :=
    if negb (VerifyIssuedAt m now)
    then ("Token used before issued", Z.lor errs ValidationErrorIssuedAt) else (inner, errs) in
  let '(inner, errs) :=
    if negb (VerifyNotBefore m now)
    then ("Token is not valid yet", Z.lor errs ValidationErrorNotValidYet) else (inner, errs) in
  if bool_decide (errs = 0) then None else Some (ValidationError inner errs).

(** [Parser.ParseUnverified]: split and decode, look the method up. *)
Definition ParseUnverified (tokenString : TokenString) : option Token * option error :=
  match tokenString with
  | Malformed _ =>
      (None, Some (ValidationError "token is malformed" ValidationErrorMalformed))
  | Compact None claims _ =>
      (None, Some (ValidationError "signing method (alg) is unspecified."
                     ValidationErrorUnverifiable))
  | Compact (Some alg) claims _ =>
      match GetSigningMethod alg with
      | None =>
          (None, Some (ValidationError "signing method (alg) is unavailable."
                         ValidationErrorUnverifiable))
      | Some method =>
          (Some {| Method := method; Header_alg := Some alg; Claims := claims;
                   Signature_ := None; Valid := false |}, None)
      end
  end.

Definition signature_of (tokenString : TokenString) : Signature :=
  match tokenString with
  | Malformed raw => SigBytes raw
  | Compact _ _ sig => sig
  end.

(** Modelled from the spec: [jwt.Parse(tokenString, keyFunc)] of golang-jwt,
    at clock reading [now]: decode, ask [keyFunc] for the key, verify the
    signature, validate the claims, and only then set [Valid]. *)
Definition Parse (now : Z) (tokenString : TokenString) (keyFunc : Keyfunc)
    : option Token * option error :=
  match ParseUnverified tokenString with
  | (Some token, None) =>
      match keyFunc token with
      | (Some key, None) =>
          let sig := signature_of tokenString in
          let token := {| Method := Method token; Header_alg := Header_alg token;
                          Claims := Claims token; Signature_ := Some sig;
                          Valid := false |} in
          if negb (Verify (Method token) (Header_alg token) (Claims token) sig key)
          then (Some token,
                Some (ValidationError "signature is invalid" ValidationErrorSignatureInvalid))
          else
            match MapClaims_Valid now (Claims token) with
            | Some vErr => (Some token, Some vErr)
            | None =>
                (Some {| Method := Method token; Header_alg := Header_alg token;
                         Claims := Claims token; Signature_ := Some sig;
                         Valid := true |}, None)
            end
      | (_, Some err) =>
          let inner := match err with errorString s => s | ValidationError s _ => s end in
          (Some token, Some (ValidationError inner ValidationErrorUnverifiable))
      | (None, None) =>
          (Some token,
           Some (ValidationError "key is of invalid type" ValidationErrorSignatureInvalid))
      end
  | (token, Some err) => (token, Some err)
  | (None, None) => (None, Some (ValidationError "token is malformed" ValidationErrorMalformed))
  end.

End jwt.

Arguments jwt.MapClaims_Valid : simpl never.
Arguments jwt.GetSigningMethod : simpl never.
Arguments jwt.VerifyExpiresAt : simpl never.
Arguments jwt.VerifyIssuedAt : simpl never.
Arguments jwt.VerifyNotBefore : simpl never.

(** ** token-service.go *)

Record User : Type := mkUser {
  ID : string;
  Name : string;
  Password : string;
  FirstName : string;
  LastName : string;
  Role : string;
  Age : Z
}.

#[global] Instance User_eq_dec : EqDecision User.
Proof. solve_decision. Defined.

Record tokenService : Type := mkTokenService {
  secret : string;
  rejectedTokens : list string
}.

Definition NewTokenService (secret : string) : tokenService :=
  {| secret := secret; rejectedTokens := [] |}.

(** [GenerateToken]; [now] is [time.Now().Unix()] and [jti] the value of
    [uuid.NewString()]. *)
Definition GenerateToken (t : tokenService) (now : Z) (jti : string) (user : User)
    : option jwt.TokenString * option error :=
  let token := jwt.New jwt.SigningMethodHS256 in
  let token := jwt.set_claim "user_id" (VString (ID user)) token in
  let token := jwt.set_claim "role" (VString (Role user)) token in
  let token := jwt.set_claim "name" (VString (Name user)) token in
  let token := jwt.set_claim "exp" (VNumber (now + 10 * 60)) token in
  let token := jwt.set_claim "jti" (VString jti) token in
  jwt.SignedString token (secret t).

(** The key function both [ValidateToken] and [RejectToken] pass to
    [jwt.Parse]. *)
Definition keyFunc (t : tokenService) : jwt.Keyfunc := fun token =>
  match jwt.Method token with
  | jwt.SigningMethodHMAC _ => (Some (secret t), None)
  | _ =>
      (None, Some (errorString ("unexpected signing method: "
                                  +:+ default "<nil>" (jwt.Header_alg token))))
  end.

(** The loop over [t.rejectedTokens] in [ValidateToken]: each iteration
    evaluates [token.Claims.(jwt.MapClaims)["jti"].(string)] anew.  Returns
    whether the loop left the function through its [return]. *)
Fixpoint on_rejected_list (rejected : list string) (claims : jwt.MapClaims) : result bool :=
  match rejected with
  | [] => Return false
  | rejectedJTI :: rest =>
      jti ← assert_string (claims !! "jti");
      if bool_decide (rejectedJTI = jti) then Return true
      else on_rejected_list rest claims
  end.

Definition ValidateToken (t : tokenService) (now : Z) (tokenString : jwt.TokenString)
    : result (option User * option error) :=
  match jwt.Parse now tokenString (keyFunc t) with
  | (_, Some err) => Return (None, Some err)
  | (None, None) => Panic "invalid memory address or nil pointer dereference"
  | (Some token, None) =>
      rejected ← on_rejected_list (rejectedTokens t) (jwt.Claims token);
      if (rejected : bool) then Return (None, Some (errorString "token is rejected"))
      else if jwt.Valid token then
        user_id ← assert_string (jwt.Claims token !! "user_id");
        name ← assert_string (jwt.Claims token !! "name");
        Return (Some {| ID := user_id; Name := name; Password := ""; FirstName := "";
                        LastName := ""; Role := ""; Age := 0 |}, None)
      else Return (None, Some (errorString "invalid token"))
  end.

Definition RejectToken (t : tokenService) (now : Z) (tokenString : jwt.TokenString)
    : tokenService * result (option error) :=
  match jwt.Parse now tokenString (keyFunc t) with
  | (_, Some err) => (t, Return (Some err))
  | (None, None) => (t, Panic "invalid memory address or nil pointer dereference")
  | (Some token, None) =>
      if jwt.Valid token then
        match assert_string (jwt.Claims token !! "jti") with
        | Return jti =>
            ({| secret := secret t; rejectedTokens := rejectedTokens t ++ [jti] |},
             Return None)
        | Panic v => (t, Panic v)
        end
      else (t, Return None)
  end.

Definition GetRejectedTokens (t : tokenService) : list string * option error :=
  (rejectedTokens t, None).

(** ** vm-service.go *)

Module VMCreationTask.
Record t : Type := mk { TaskID : string; DeploymentID : string }.
End VMCreationTask.

Module VMDeployment.
Record t : Type := mk { ID : string; ResourceID : string; Status : string }.
End VMDeployment.

Module DeploymentUpdate.
Record t : Type := mk { DeploymentID : string; ResourceID : string }.
End DeploymentUpdate.

Module VM.
Record t : Type := mk { ID : string; Name : string; NumCPUs : Z; MemoryMB : Z }.
End VM.

Module CreateVMBody.
Record t : Type := mk { Name : string; NumCPUs : Z; MemoryMB : Z }.
End CreateVMBody.

#[global] Instance VMCreationTask_eq_dec : EqDecision VMCreationTask.t.
Proof. solve_decision. Defined.
#[global] Instance VMDeployment_eq_dec : EqDecision VMDeployment.t.
Proof. solve_decision. Defined.
#[global] Instance DeploymentUpdate_eq_dec : EqDecision DeploymentUpdate.t.
Proof. solve_decision. Defined.

(** The service.  [deployments] and [vms] are the two [sync.Map]s.
    [updateChannel] is unbuffered: what it holds are the messages of the
    goroutines currently blocked in [s.updateChannel <- ...]. *)
Record vmService : Type := mkVMService {
  tasks : list VMCreationTask.t;
  deployments : gmap string VMDeployment.t;
  vms : gmap string VM.t;
  updateChannel : list DeploymentUpdate.t
}.

Definition NewVMService : vmService :=
  {| tasks := []; deployments := ∅; vms := ∅; updateChannel := [] |}.

(** A [go] statement that has been executed: the call it started. *)
Inductive goroutine : Type :=
  | go_simulateVMCreation (deploymentID : string) (createVMBody : CreateVMBody.t).

(** [createDeployment]; [deploymentID] is the value of [uuid.New().String()].
    Returns the receiver, the goroutine started, and the deployment. *)
Definition createDeployment (s : vmService) (deploymentID : string)
    (createVMBody : CreateVMBody.t) : vmService * goroutine * VMDeployment.t :=
  let deployment :=
    {| VMDeployment.ID := deploymentID; VMDeployment.ResourceID := "";
       VMDeployment.Status := "in-progress" |} in
  let s := {| tasks := tasks s;
              deployments := <[VMDeployment.ID deployment := deployment]> (deployments s);
              vms := vms s; updateChannel := updateChannel s |} in
  (s, go_simulateVMCreation (VMDeployment.ID deployment) createVMBody, deployment).

(** [CreateVM]; [taskID] and [deploymentID] are the two UUIDs drawn, in this
    order. *)
Definition CreateVM (s : vmService) (taskID deploymentID : string)
    (createVMBody : CreateVMBody.t)
    : vmService * goroutine * (option VMCreationTask.t * option error) :=
  let '(s, g, deployment) := createDeployment s deploymentID createVMBody in
  let task := {| VMCreationTask.TaskID := taskID;
                 VMCreationTask.DeploymentID := VMDeployment.ID deployment |} in
  let s := {| tasks := tasks s ++ [task]; deployments := deployments s;
              vms := vms s; updateChannel := updateChannel s |} in
  (s, g, (Some task, None)).

(** [simulateVMCreation], up to and including the point where it blocks in
    the channel send; [vmID] is the UUID drawn. *)
Definition simulateVMCreation (s : vmService) (vmID : string) (deploymentID : string)
    (createVMBody : CreateVMBody.t) : vmService :=
  let vm := {| VM.ID := vmID; VM.Name := CreateVMBody.Name createVMBody;
               VM.NumCPUs := CreateVMBody.NumCPUs createVMBody;
               VM.MemoryMB := CreateVMBody.MemoryMB createVMBody |} in
  {| tasks := tasks s; deployments := deployments s;
     vms := <[VM.ID vm := vm]> (vms s);
     updateChannel := updateChannel s ++
       [ {| DeploymentUpdate.DeploymentID := deploymentID;
            DeploymentUpdate.ResourceID := VM.ID vm |} ] |}.

(** One iteration of the loop of [UpdateDeploymentStatus], for the received
    [update].  The loop is the only writer of a key that is already stored,
    so its [Load] and [Store] are taken as one step. *)
Definition UpdateDeploymentStatus_iter (s : vmService) (update : DeploymentUpdate.t)
    : vmService :=
  match deployments s !! DeploymentUpdate.DeploymentID update with
  | None => s
  | Some deployment =>
      let deployment :=
        {| VMDeployment.ID := VMDeployment.ID deployment;
           VMDeployment.ResourceID := VMDeployment.ResourceID deployment;
           VMDeployment.Status := "created" |} in
      {| tasks := tasks s;
         deployments := <[DeploymentUpdate.DeploymentID update := deployment]> (deployments s);
         vms := vms s; updateChannel := updateChannel s |}
  end.

(** [UpdateDeploymentStatus] run over the sequence of messages the channel
    delivers before it is closed. *)
Definition UpdateDeploymentStatus (s : vmService) (received : list DeploymentUpdate.t)
    : vmService :=
  foldl UpdateDeploymentStatus_iter s received.

Definition ListTasks (s : vmService) : list VMCreationTask.t * option error :=
  (tasks s, None).

(** [ListDeployments]: [Range] visits the entries in no specified order; the
    order of [map_to_list] stands for it. *)
Definition ListDeployments (s : vmService) : list VMDeployment.t * option error :=
  ((map_to_list (deployments s)).*2, None).

(** ** The running pipeline

    The service together with the goroutines around it: request handlers
    calling [CreateVM], the goroutines started by [createDeployment], and the
    one goroutine running [UpdateDeploymentStatus] (started in [main]).
    [issued] and [processed] are history: the UUIDs drawn so far, and the
    updates the loop has received so far. *)
Record System : Type := mkSystem {
  service : vmService;
  spawned : list goroutine;
  issued : list string;
  processed : list DeploymentUpdate.t
}.

Definition initial : System :=
  {| service := NewVMService; spawned := []; issued := []; processed := [] |}.

Inductive Event : Type :=
  | Call_CreateVM (createVMBody : CreateVMBody.t) (taskID deploymentID : string)
  | Run_simulateVMCreation (i : nat) (vmID : string)
  | Loop_receive (i : nat).

(** One scheduling step.  [uuid.New] never returns a value it returned
    before: a step that would draw a used UUID does not exist ([None]), and
    neither does a step of a goroutine or of a blocked sender that is not
    there.  A call of [CreateVM] is one step here, from its first statement
    to its [return]; what is visible between its [createDeployment] and its
    append to [s.tasks] is the subject of [advance] below. *)
Definition step (sys : System) (e : Event) : option System :=
  match e with
  | Call_CreateVM createVMBody taskID deploymentID =>
      if bool_decide ((taskID ∉ issued sys) ∧ (deploymentID ∉ issued sys)
                      ∧ taskID ≠ deploymentID)
      then
        let '(s, g, _) := CreateVM (service sys) taskID deploymentID createVMBody in
        Some {| service := s; spawned := spawned sys ++ [g];
                issued := issued sys ++ [taskID; deploymentID];
                processed := processed sys |}
      else None
  | Run_simulateVMCreation i vmID =>
      match spawned sys !! i with
      | Some (go_simulateVMCreation deploymentID createVMBody) =>
          if bool_decide (vmID ∉ issued sys)
          then
            Some {| service := simulateVMCreation (service sys) vmID deploymentID createVMBody;
                    spawned := delete i (spawned sys);
                    issued := issued sys ++ [vmID];
                    processed := processed sys |}
          else None
      | None => None
      end
  | Loop_receive i =>
      let s := service sys in
      match updateChannel s !! i with
      | Some update =>
          let s := {| tasks := tasks s; deployments := deployments s; vms := vms s;
                      updateChannel := delete i (updateChannel s) |} in
          Some {| service := UpdateDeploymentStatus_iter s update;
                  spawned := spawned sys;
                  issued := issued sys;
                  processed := processed sys ++ [update] |}
      | None => None
      end
  end.

Fixpoint run (trace : list Event) (sys : System) : option System :=
  match trace with
  | [] => Some sys
  | e :: trace =>
      match step sys e with
      | Some sys => run trace sys
      | None => None
      end
  end.

(** How many of the updates [l] name deployment [id]. *)
Definition count_updates (id : string) (l : list DeploymentUpdate.t) : nat :=
  length (filter (λ u, DeploymentUpdate.DeploymentID u = id) l).

(** How many updates naming deployment [id] the loop has received. *)
Definition updates_processed (sys : System) (id : string) : nat :=
  count_updates id (processed sys).

Definition goroutine_deployment (g : goroutine) : string :=
  match g with
  | go_simulateVMCreation deploymentID _ => deploymentID
  end.

(** The deployments that still have a goroutine on its way to the loop:
    started and not yet at its send, or blocked in its send. *)
Definition pending (sys : System) : list string :=
  (goroutine_deployment <$> spawned sys)
  ++ (DeploymentUpdate.DeploymentID <$> updateChannel (service sys)).

(** What holds in every state the pipeline can reach. *)
Definition Inv (sys : System) : Prop :=
  (∀ id d, deployments (service sys) !! id = Some d →
     VMDeployment.ID d = id ∧ VMDeployment.ResourceID d = ""
     ∧ id ∈ issued sys
     ∧ ((updates_processed sys id = 0%nat ∧ VMDeployment.Status d = "in-progress"
         ∧ id ∈ pending sys)
        ∨ (updates_processed sys id = 1%nat ∧ VMDeployment.Status d = "created"
           ∧ id ∉ pending sys)))
  ∧ NoDup (pending sys)
  ∧ (∀ id, id ∈ pending sys → id ∈ issued sys)
  ∧ (∀ u, u ∈ processed sys → DeploymentUpdate.DeploymentID u ∈ issued sys)
  ∧ (∀ task, task ∈ tasks (service sys) → VMCreationTask.TaskID task ∈ issued sys).

(** ** Vocabulary of the properties *)

(** The classification [ValidateToken] gives a revoked token. *)
Definition Revoked : error := errorString "token is rejected".

(** [tokenString] has three decodable segments, declares one of the HMAC
    methods, and its third segment is the tag of that method under [key] over
    its own header and claims. *)
Definition hmac_signed (key : string) (tokenString : jwt.TokenString) : bool :=
  match tokenString with
  | jwt.Compact (Some alg) claims sig =>
      match jwt.GetSigningMethod alg with
      | Some (jwt.SigningMethodHMAC h) =>
          bool_decide (sig = jwt.MAC (jwt.SigningMethodHMAC h) key (Some alg) claims)
      | _ => false
      end
  | _ => false
  end.

Definition malformed (tokenString : jwt.TokenString) : bool :=
  match tokenString with
  | jwt.Malformed _ => true
  | jwt.Compact _ _ _ => false
  end.

(** The header declares no method, an unregistered one, or one that is not
    an HMAC. *)
Definition unexpected_algorithm (tokenString : jwt.TokenString) : bool :=
  match tokenString with
  | jwt.Compact (Some alg) _ _ =>
      match jwt.GetSigningMethod alg with
      | Some (jwt.SigningMethodHMAC _) => false
      | _ => true
      end
  | jwt.Compact None _ _ => true
  | jwt.Malformed _ => false
  end.

Definition claims_of (tokenString : jwt.TokenString) : jwt.MapClaims :=
  match tokenString with
  | jwt.Compact _ claims _ => claims
  | jwt.Malformed _ => ∅
  end.

(** What the service treats as expired at the clock reading [now]: the expiry
    check of the library fails.  It fails when ["exp"] is a number other than
    0 and [now] is at or past it, and when ["exp"] is not a number.  An
    ["exp"] of 0 is no expiry for the library, like an absent one. *)
Definition expired (now : Z) (tokenString : jwt.TokenString) : bool :=
  negb (jwt.VerifyExpiresAt (claims_of tokenString) now).

(** Expiry in the words of the specification (section 4.1): the claims carry
    an expiry and the current time is at or past it.  It differs from
    [expired] on a token whose ["exp"] is 0. *)
Definition past_expiry (now : Z) (tokenString : jwt.TokenString) : bool :=
  match claims_of tokenString !! "exp" with
  | Some (VNumber exp) => bool_decide (exp ≤ now)%Z
  | _ => false
  end.

(** [jwt.Parse] accepts the token at [now]. *)
Definition authentic (t : tokenService) (now : Z) (tokenString : jwt.TokenString) : Prop :=
  ∃ token, jwt.Parse now tokenString (keyFunc t) = (Some token, None).

Definition reachable (sys : System) : Prop :=
  ∃ trace, run trace initial = Some sys.

(** ** Sample inputs *)

(** The service as [main] constructs it. *)
Definition main_tokenService : tokenService := NewTokenService "secret".

Definition alice : User :=
  {| ID := "u1"; Name := "alice"; Password := "VMware1!"; FirstName := "";
     LastName := ""; Role := "admin"; Age := 0 |}.

(** A token signed with HS256 under [key] for the given claims. *)
Definition hs256_token (key : string) (claims : jwt.MapClaims) : jwt.TokenString :=
  jwt.Compact (Some "HS256") claims (jwt.MAC jwt.SigningMethodHS256 key (Some "HS256") claims).

(** Correctly signed, expiring at 2000, but carrying no ["jti"]. *)
Definition token_without_jti : jwt.TokenString :=
  hs256_token "secret"
    (<["user_id" := VString "u1"]> (<["name" := VString "alice"]>
      (<["exp" := VNumber 2000]> ∅))).

(** Correctly signed, with a ["jti"], but no ["user_id"]. *)
Definition token_without_user_id : jwt.TokenString :=
  hs256_token "secret"
    (<["jti" := VString "j7"]> (<["name" := VString "alice"]>
      (<["exp" := VNumber 2000]> ∅))).

(** Correctly signed, with a ["name"] that is a JSON number. *)
Definition token_with_numeric_name : jwt.TokenString :=
  hs256_token "secret"
    (<["jti" := VString "j8"]> (<["user_id" := VString "u1"]>
      (<["name" := VNumber 42]> (<["exp" := VNumber 2000]> ∅)))).

(** The token [GenerateToken] issues for [alice] at time 1000 with UUID
    ["j1"]. *)
Definition alice_token : jwt.TokenString :=
  hs256_token "secret"
    (<["jti" := VString "j1"]> (<["exp" := VNumber 1600]>
      (<["name" := VString "alice"]> (<["role" := VString "admin"]>
        (<["user_id" := VString "u1"]> ∅))))).

(** Correctly signed, with the claims of [alice_token] but an ["exp"] of 0. *)
Definition token_with_exp_zero : jwt.TokenString :=
  hs256_token "secret"
    (<["jti" := VString "j1"]> (<["exp" := VNumber 0]>
      (<["name" := VString "alice"]> (<["role" := VString "admin"]>
        (<["user_id" := VString "u1"]> ∅))))).

(** The request of the scenario: a VM named web1 with 2 CPUs and 2048 MB. *)
Definition web1 : CreateVMBody.t :=
  {| CreateVMBody.Name := "web1"; CreateVMBody.NumCPUs := 2;
     CreateVMBody.MemoryMB := 2048 |}.

(** A request whose name is empty. *)
Definition nameless : CreateVMBody.t :=
  {| CreateVMBody.Name := ""; CreateVMBody.NumCPUs := 2;
     CreateVMBody.MemoryMB := 2048 |}.

(** One request served to the end: [CreateVM] is called, the goroutine it
    started fabricates the VM and sends, the loop receives. *)
Definition web1_trace : list Event :=
  [ Call_CreateVM web1 "t1" "d1"; Run_simulateVMCreation 0 "v1"; Loop_receive 0 ].

Definition web1_deployment (status : string) : VMDeployment.t :=
  {| VMDeployment.ID := "d1"; VMDeployment.ResourceID := "";
     VMDeployment.Status := status |}.

(** The service holding the deployment of web1, still in progress. *)
Definition web1_in_progress : vmService :=
  {| tasks := [ {| VMCreationTask.TaskID := "t1"; VMCreationTask.DeploymentID := "d1" |} ];
     deployments := {[ "d1" := web1_deployment "in-progress" ]};
     vms := ∅; updateChannel := [] |}.

Definition web1_update : DeploymentUpdate.t :=
  {| DeploymentUpdate.DeploymentID := "d1"; DeploymentUpdate.ResourceID := "v1" |}.

(** The state after [web1_trace]. *)
Definition web1_reconciled : System :=
  default initial (run web1_trace initial).

(** ** user-service.go *)

Module LoginUserBody.
Record t : Type := mk { Name : string; Password : string }.
End LoginUserBody.

Module CreateUserBody.
Record t : Type := mk {
  Name : string;
  Password : string;
  FirstName : string;
  LastName : string;
  Role : string;
  Age : Z
}.
End CreateUserBody.

Record userService : Type := mkUserService {
  users : list User
}.

Definition NewUserService : userService :=
  {| users :=
       [ {| ID := "embedded1"; Name := "John"; Password := "VMware1!"; FirstName := "";
            LastName := ""; Role := ""; Age := 0 |};
         {| ID := "embedded2"; Name := "Jane"; Password := "VMware1!"; FirstName := "";
            LastName := ""; Role := ""; Age := 0 |} ] |}.

(** [CreateUser]; [id] is the value of [uuid.NewString()]. *)
Definition CreateUser (s : userService) (id : string) (createUserBody : CreateUserBody.t)
    : userService * (option User * option error) :=
  let newUser :=
    {| ID := id;
       Name := CreateUserBody.Name createUserBody;
       Password := CreateUserBody.Password createUserBody;
       FirstName := CreateUserBody.FirstName createUserBody;
       LastName := CreateUserBody.LastName createUserBody;
       Role := CreateUserBody.Role createUserBody;
       Age := CreateUserBody.Age createUserBody |} in
  ({| users := users s ++ [newUser] |}, (Some newUser, None)).

(** The loop of [GetUser] over [s.users]. *)
Fixpoint GetUser_range (l : list User) (id : string) : option User * option error :=
  match l with
  | [] => (None, Some (errorString "User not found"))
  | user :: rest =>
      if bool_decide (ID user = id) then (Some user, None)
      else GetUser_range rest id
  end.

Definition GetUser (s : userService) (id : string) : option User * option error :=
  GetUser_range (users s) id.

Definition ListUsers (s : userService) : list User * option error :=
  (users s, None).

(** The index at which a [for i, u := range s.users] loop first meets a user
    with [u.ID == id], counting from [i]. *)
Fixpoint range_index (l : list User) (id : string) (i : nat) : option nat :=
  match l with
  | [] => None
  | u :: rest =>
      if bool_decide (ID u = id) then Some i
      else range_index rest id (S i)
  end.

(** [DeleteUser]: at the first index [i] with the ID,
    [s.users = append(s.users[:i], s.users[i+1:]...)]. *)
Definition DeleteUser (s : userService) (id : string) : userService * option error :=
  match range_index (users s) id 0 with
  | Some i => ({| users := take i (users s) ++ drop (S i) (users s) |}, None)
  | None => (s, Some (errorString "User not found"))
  end.

(** [UpdateUser]: at the first index [i] with the ID, the six fields of
    [s.users[i]] are assigned and [&s.users[i]] is returned; the ID stays. *)
Definition UpdateUser (s : userService) (id : string) (updateUserBody : CreateUserBody.t)
    : userService * (option User * option error) :=
  match range_index (users s) id 0 with
  | Some i =>
      match users s !! i with
      | Some u =>
          let u := {| ID := ID u;
                      Name := CreateUserBody.Name updateUserBody;
                      Password := CreateUserBody.Password updateUserBody;
                      FirstName := CreateUserBody.FirstName updateUserBody;
                      LastName := CreateUserBody.LastName updateUserBody;
                      Role := CreateUserBody.Role updateUserBody;
                      Age := CreateUserBody.Age updateUserBody |} in
          ({| users := <[i := u]> (users s) |}, (Some u, None))
      | None => (s, (None, Some (errorString "user not found")))
      end
  | None => (s, (None, Some (errorString "user not found")))
  end.

(** The loop of [ValidateCredentials] over [s.users]. *)
Fixpoint ValidateCredentials_range (l : list User) (loginUser : LoginUserBody.t)
    : option User * option error :=
  match l with
  | [] => (None, Some (errorString "invalid credentials"))
  | user :: rest =>
      if bool_decide (Name user = LoginUserBody.Name loginUser
                      ∧ Password user = LoginUserBody.Password loginUser)
      then (Some user, None)
      else ValidateCredentials_range rest loginUser
  end.

Definition ValidateCredentials (s : userService) (loginUser : LoginUserBody.t)
    : option User * option error :=
  ValidateCredentials_range (users s) loginUser.

(** A call on the user service, as the handlers make them; the string of
    [Do_CreateUser] is the UUID drawn. *)
Inductive UserCall : Type :=
  | Do_CreateUser (id : string) (createUserBody : CreateUserBody.t)
  | Do_DeleteUser (id : string)
  | Do_UpdateUser (id : string) (updateUserBody : CreateUserBody.t).

(** One call.  [uuid.NewString] does not return the ID of a stored user: a
    [CreateUser] that would draw one does not exist ([None]). *)
Definition user_call (s : userService) (c : UserCall) : option userService :=
  match c with
  | Do_CreateUser id createUserBody =>
      if bool_decide (id ∉ ID <$> users s)
      then Some (CreateUser s id createUserBody).1 else None
  | Do_DeleteUser id => Some (DeleteUser s id).1
  | Do_UpdateUser id updateUserBody => Some (UpdateUser s id updateUserBody).1
  end.

Fixpoint user_calls (cs : list UserCall) (s : userService) : option userService :=
  match cs with
  | [] => Some s
  | c :: cs =>
      match user_call s c with
      | Some s => user_calls cs s
      | None => None
      end
  end.

(** The fields a request body sets, as a user with the given ID. *)
Definition user_of_body (id : string) (body : CreateUserBody.t) : User :=
  {| ID := id;
     Name := CreateUserBody.Name body;
     Password := CreateUserBody.Password body;
     FirstName := CreateUserBody.FirstName body;
     LastName := CreateUserBody.LastName body;
     Role := CreateUserBody.Role body;
     Age := CreateUserBody.Age body |}.

Definition bob_body : CreateUserBody.t :=
  {| CreateUserBody.Name := "bob"; CreateUserBody.Password := "pw1";
     CreateUserBody.FirstName := "Bob"; CreateUserBody.LastName := "B";
     CreateUserBody.Role := "user"; CreateUserBody.Age := 30 |}.

Definition john_login : LoginUserBody.t :=
  {| LoginUserBody.Name := "John"; LoginUserBody.Password := "VMware1!" |}.

(** ** Sequences of revocations *)

(** [RejectToken] called for each (clock reading, token string) of the list
    in turn; the receiver after the last call. *)
Definition RejectTokens (calls : list (Z * jwt.TokenString)) (t : tokenService)
    : tokenService :=
  foldl (λ t call, (RejectToken t call.1 call.2).1) t calls.

(** A token signed under [key] with the HMAC method of hash [h]. *)
Definition hmac_token (h : jwt.Hash) (key : string) (claims : jwt.MapClaims)
    : jwt.TokenString :=
  let alg := Some (jwt.Alg (jwt.SigningMethodHMAC h)) in
  jwt.Compact alg claims (jwt.MAC (jwt.SigningMethodHMAC h) key alg claims).

(** An unsigned token declaring the algorithm none, with the claims of
    [alice_token]. *)
Definition alice_token_alg_none : jwt.TokenString :=
  jwt.Compact (Some "none") (claims_of alice_token) (jwt.SigBytes "").

(** A second token for alice, with another identifier. *)
Definition alice_second_token : jwt.TokenString :=
  hs256_token "secret"
    (<["jti" := VString "j2"]> (<["exp" := VNumber 1700]>
      (<["name" := VString "alice"]> (<["role" := VString "admin"]>
        (<["user_id" := VString "u1"]> ∅))))).

(** ** vm-service.go, continued *)

(** A value of type [interface{}] held by a [sync.Map] or by the keys of a
    request context, with its dynamic type. *)
Inductive any : Type :=
  | any_VM (vm : VM.t)
  | any_VM_ptr (vm : VM.t)
  | any_User (user : User)
  | any_User_ptr (user : User).

(** What [Range] finds in [s.vms]: [simulateVMCreation], the only writer of
    the map, stores the pointer [vm] ([vm := &VM{...}]), so every value is a
    [*VM]. *)
Definition vms_entries (s : vmService) : list (string * any) :=
  (λ kv, (kv.1, any_VM_ptr kv.2)) <$> map_to_list (vms s).

(** The callback of [ListVMs], over the entries [Range] visits: [value.(VM)]
    and an append. *)
Fixpoint ListVMs_Range (entries : list (string * any)) (vms : list VM.t)
    : result (list VM.t) :=
  match entries with
  | [] => Return vms
  | (_, value) :: entries =>
      match value with
      | any_VM vm => ListVMs_Range entries (vms ++ [vm])%list
      | _ => Panic "interface conversion: interface {} is not main.VM"
      end
  end.

Definition ListVMs (s : vmService) : result (list VM.t * option error) :=
  vms ← ListVMs_Range (vms_entries s) [];
  Return (vms, None).

(** How the tasks, the deployments, the goroutines and the VMs of a state
    refer to each other. *)
Definition Linked (sys : System) : Prop :=
  (∀ id, id ∈ VMCreationTask.DeploymentID <$> tasks (service sys)
         ↔ is_Some (deployments (service sys) !! id))
  ∧ NoDup (VMCreationTask.TaskID <$> tasks (service sys))
  ∧ NoDup (VMCreationTask.DeploymentID <$> tasks (service sys))
  ∧ (∀ id, id ∈ pending sys → is_Some (deployments (service sys) !! id))
  ∧ (∀ k vm, vms (service sys) !! k = Some vm → VM.ID vm = k ∧ k ∈ issued sys)
  ∧ (∀ u, u ∈ (updateChannel (service sys) ++ processed sys)%list →
          is_Some (vms (service sys) !! DeploymentUpdate.ResourceID u)).

(** The deployment a loop iteration leaves for a stored one. *)
Definition set_created (d : VMDeployment.t) : VMDeployment.t :=
  {| VMDeployment.ID := VMDeployment.ID d;
     VMDeployment.ResourceID := VMDeployment.ResourceID d;
     VMDeployment.Status := "created" |}.

(** The state after the request for web1 has been accepted and nothing else
    has run. *)
Definition web1_accepted : System :=
  default initial (run [Call_CreateVM web1 "t1" "d1"] initial).

(** ** [CreateVM], statement by statement

    [CreateVM] is not one step of the program: [createDeployment] stores the
    deployment and starts the goroutine, and only after it has returned is
    the task appended to [s.tasks].  In between, the goroutine and the loop
    can run.  A [Pipeline] is the pipeline with the call in progress made
    explicit: [in_call] is the task of the call that is past its
    [createDeployment] and before its append, if there is one.  No lock
    guards [s.tasks], so what two overlapping calls leave in it is not
    defined by the language: calls of [CreateVM] are taken one at a time. *)
Record Pipeline : Type := mkPipeline {
  state : System;
  in_call : option VMCreationTask.t
}.

Definition started : Pipeline := {| state := initial; in_call := None |}.

Inductive Point : Type :=
  | Enter_CreateVM (createVMBody : CreateVMBody.t) (taskID deploymentID : string)
  | Leave_CreateVM
  | Elsewhere (e : Event).

(** One step of the finer schedule: a call of [CreateVM] runs up to its
    append ([Enter_CreateVM], refused while another call is in progress), the
    call in progress appends its task and returns ([Leave_CreateVM]), or a
    goroutine or the loop takes a step of its own ([Elsewhere]). *)
Definition advance (p : Pipeline) (point : Point) : option Pipeline :=
  let sys := state p in
  match point with
  | Enter_CreateVM createVMBody taskID deploymentID =>
      match in_call p with
      | Some _ => None
      | None =>
          if bool_decide ((taskID ∉ issued sys) ∧ (deploymentID ∉ issued sys)
                          ∧ taskID ≠ deploymentID)
          then
            let '(s, g, deployment) :=
              createDeployment (service sys) deploymentID createVMBody in
            let task := {| VMCreationTask.TaskID := taskID;
                           VMCreationTask.DeploymentID := VMDeployment.ID deployment |} in
            Some {| state := {| service := s; spawned := (spawned sys ++ [g])%list;
                                issued := (issued sys ++ [taskID; deploymentID])%list;
                                processed := processed sys |};
                    in_call := Some task |}
          else None
      end
  | Leave_CreateVM =>
      match in_call p with
      | Some task =>
          let s := service sys in
          let s := {| tasks := (tasks s ++ [task])%list; deployments := deployments s;
                      vms := vms s; updateChannel := updateChannel s |} in
          Some {| state := {| service := s; spawned := spawned sys;
                              issued := issued sys; processed := processed sys |};
                  in_call := None |}
      | None => None
      end
  | Elsewhere (Call_CreateVM _ _ _) => None
  | Elsewhere e =>
      match step sys e with
      | Some sys => Some {| state := sys; in_call := in_call p |}
      | None => None
      end
  end.

Fixpoint advances (points : list Point) (p : Pipeline) : option Pipeline :=
  match points with
  | [] => Some p
  | point :: points =>
      match advance p point with
      | Some p => advances points p
      | None => None
      end
  end.

(** The tasks of a state, the one about to be appended included. *)
Definition tasks_with_call (p : Pipeline) : list VMCreationTask.t :=
  (tasks (service (state p)) ++ option_list (in_call p))%list.

(** How tasks and deployments refer to each other at every point of the finer
    schedule. *)
Definition Corresponding (p : Pipeline) : Prop :=
  let s := service (state p) in
  (∀ id, id ∈ VMCreationTask.DeploymentID <$> tasks_with_call p
         ↔ is_Some (deployments s !! id))
  ∧ NoDup (VMCreationTask.TaskID <$> tasks_with_call p)
  ∧ NoDup (VMCreationTask.DeploymentID <$> tasks_with_call p)
  ∧ (∀ task, task ∈ tasks_with_call p → VMCreationTask.TaskID task ∈ issued (state p))
  ∧ (∀ id d, deployments s !! id = Some d →
       VMDeployment.ID d = id ∧ id ∈ issued (state p)).

(** The request for web1 has stored its deployment, the goroutine has run and
    the loop has received the update, and the call has not appended its task
    yet. *)
Definition web1_before_append : list Point :=
  [ Enter_CreateVM web1 "t1" "d1"; Elsewhere (Run_simulateVMCreation 0 "v1");
    Elsewhere (Loop_receive 0) ].

(** ** server.go

    The handlers, as functions from what they read of the request to the
    response they write.  [decode] stands for the reading of a raw token
    string as three segments, which [jwt.Parse] does first and which the model
    of the library takes as done: it maps the bytes the handlers pass on to
    the token string the library model works on. *)

(** The [gin.H] bodies the handlers write. *)
Inductive Body : Type :=
  | gin_H (key value : string)
  | gin_H_token (key : string) (token : jwt.TokenString).

(** [ctx.JSON(code, body)]. *)
Record Response : Type := JSON { Code : Z; ResponseBody : Body }.

Definition StatusOK : Z := 200.
Definition StatusBadRequest : Z := 400.
Definition StatusUnauthorized : Z := 401.
Definition StatusInternalServerError : Z := 500.

(** [err.Error()]. *)
Definition Error (err : error) : string :=
  match err with
  | ValidationError inner _ => inner
  | errorString s => s
  end.

(** The slice expression [s[n:]] on a string: the bytes from index [n] on,
    and a panic when [n] is past the end. *)
Fixpoint slice_from (n : nat) (s : string) : result string :=
  match n, s with
  | O, _ => Return s
  | S n, String _ s => slice_from n s
  | S _, EmptyString => Panic "slice bounds out of range"
  end.

(** How a middleware leaves the request: answered and aborted, or handed on
    ([ctx.Next()]) with the keys it has set. *)
Inductive Handled : Type :=
  | Aborted (response : Response)
  | Next (keys : gmap string (option any)).

(** The double quote character, code 34. *)
Definition quote : string := String (Ascii.ascii_of_nat 34) EmptyString.

(** [ctx.MustGet(key)]. *)
Definition MustGet (keys : gmap string (option any)) (key : string) : result (option any) :=
  match keys !! key with
  | Some value => Return value
  | None => Panic ("Key " +:+ quote +:+ key +:+ quote +:+ " does not exist")
  end.

(** The type assertion [v.(User)]; a nil pointer or a [*User] is not a
    [User]. *)
Definition assert_User (v : option any) : result User :=
  match v with
  | Some (any_User user) => Return user
  | _ => Panic "interface conversion: interface {} is not main.User"
  end.

(** What the client receives: the status, and the body if one was written. *)
Record Answer : Type := mkAnswer { StatusCode : Z; Written : option Body }.

(** A response the handlers have written with [ctx.JSON], as the client
    receives it. *)
Definition written (response : Response) : Answer :=
  {| StatusCode := Code response; Written := Some (ResponseBody response) |}.

(** Modelled from the documentation of gin, a dependency that is not among
    the sources: the handler [gin.Recovery()] returns.  It runs the handlers
    after it ([c.Next()], whose outcome is [next]) and recovers a panic among
    them with [c.AbortWithStatus(500)], which writes the status and no body.
    The handlers here write their response as their last action, so nothing
    has been written when one of them panics. *)
Definition Recovery (next : result Answer) : result Answer :=
  match next with
  | Return answer => Return answer
  | Panic _ => Return {| StatusCode := StatusInternalServerError; Written := None |}
  end.

Section Server.

Variable decode : string → jwt.TokenString.

(** The handler [AuthMiddleware] returns; [authorization] is
    [ctx.Request.Header.Get("Authorization")], empty when the header is
    absent.  The user [ValidateToken] returns is a [*User], and it is this
    pointer that is put under the key ["user"]. *)
Definition AuthMiddleware (t : tokenService) (now : Z) (authorization : string)
    : result Handled :=
  let tokenString := authorization in
  if bool_decide (tokenString = "")
  then Return (Aborted (JSON StatusUnauthorized (gin_H "error" "No token provided")))
  else
    tokenString ← slice_from 7 tokenString;
    validated ← ValidateToken t now (decode tokenString);
    match validated with
    | (_, Some err) => Return (Aborted (JSON StatusUnauthorized (gin_H "error" (Error err))))
    | (user, None) =>
        let user : option any := any_User_ptr <$> user in
        Return (Next (<["user" := user]> ∅))
    end.

(** [home], for the keys the middleware has set. *)
Definition home (keys : gmap string (option any)) : result Response :=
  value ← MustGet keys "user";
  user ← assert_User value;
  Return (JSON StatusOK (gin_H "message" ("Hello " +:+ Name user))).

(** The handlers the authorized group runs for [GET /], without what [Run]
    installs in front of the group: the middleware, then [home]. *)
Definition GET_home (t : tokenService) (now : Z) (authorization : string)
    : result Response :=
  handled ← AuthMiddleware t now authorization;
  match handled with
  | Aborted response => Return response
  | Next keys => home keys
  end.

(** The route [GET /] as [Run] registers it: the [Recovery] that
    [gin.Default()] installs, the one [r.Use(gin.Recovery())] adds, and then
    the handlers of the group.  ([gin.Default()] also installs a logger, which
    writes to the log only.) *)
Definition serve_GET_home (t : tokenService) (now : Z) (authorization : string)
    : result Answer :=
  Recovery (Recovery (response ← GET_home t now authorization;
                      Return (written response))).

(** [reject]. *)
Definition reject (t : tokenService) (now : Z) (authorization : string)
    : tokenService * result Response :=
  let tokenString := authorization in
  if bool_decide (tokenString = "")
  then (t, Return (JSON StatusUnauthorized (gin_H "message" "No token provided")))
  else
    match slice_from 7 tokenString with
    | Panic v => (t, Panic v)
    | Return tokenString =>
        match RejectToken t now (decode tokenString) with
        | (t, Return (Some err)) =>
            (t, Return (JSON StatusInternalServerError (gin_H "message" (Error err))))
        | (t, Return None) => (t, Return (JSON StatusOK (gin_H "message" "Token rejected")))
        | (t, Panic v) => (t, Panic v)
        end
    end.

(** The route [POST /reject] of the authorized group; [now1] is the clock
    reading of the middleware's [ValidateToken], [now2] that of the handler's
    [RejectToken]. *)
Definition POST_reject (t : tokenService) (now1 now2 : Z) (authorization : string)
    : tokenService * result Response :=
  match AuthMiddleware t now1 authorization with
  | Return (Next _) => reject t now2 authorization
  | Return (Aborted response) => (t, Return response)
  | Panic v => (t, Panic v)
  end.

(** Requests to [POST /reject] served one after the other; the receiver
    after the last. *)
Definition POST_rejects (requests : list (Z * Z * string)) (t : tokenService)
    : tokenService :=
  foldl (λ t request, (POST_reject t request.1.1 request.1.2 request.2).1) t requests.

(** [login]; [bound] is what [ctx.ShouldBindJSON] makes of the request body,
    the bound value or the message of its error; [now] and [jti] are the clock
    reading and the UUID [GenerateToken] draws. *)
Definition login (us : userService) (t : tokenService) (now : Z) (jti : string)
    (bound : string + LoginUserBody.t) : result Response :=
  match bound with
  | inl message => Return (JSON StatusBadRequest (gin_H "message" message))
  | inr loginUserBody =>
      match ValidateCredentials us loginUserBody with
      | (_, Some err) => Return (JSON StatusBadRequest (gin_H "message" (Error err)))
      | (None, None) => Panic "invalid memory address or nil pointer dereference"
      | (Some user, None) =>
          match GenerateToken t now jti user with
          | (_, Some err) =>
              Return (JSON StatusInternalServerError (gin_H "message" (Error err)))
          | (None, None) => Panic "invalid memory address or nil pointer dereference"
          | (Some token, None) => Return (JSON StatusOK (gin_H_token "token" token))
          end
      end
  end.

End Server.

(** A reading of raw token strings for the examples: one string is the
    token of alice, every other one is malformed. *)
Definition sample_decode (raw : string) : jwt.TokenString :=
  if bool_decide (raw = "alice.token") then alice_token else jwt.Malformed raw.

(** * Properties *)

(** ** The model of the JWT library *)

Lemma MapClaims_Valid_None now (m : jwt.MapClaims) :
  jwt.MapClaims_Valid now m = None ↔
  jwt.VerifyExpiresAt m now = true ∧ jwt.VerifyIssuedAt m now = true
  ∧ jwt.VerifyNotBefore m now = true.
Proof.
  unfold jwt.MapClaims_Valid.
  destruct (jwt.VerifyExpiresAt m now), (jwt.VerifyIssuedAt m now),
    (jwt.VerifyNotBefore m now); vm_compute; intuition congruence.
Qed.

Lemma GetSigningMethod_Alg (m : jwt.SigningMethod) :
  jwt.GetSigningMethod (jwt.Alg m) = Some m.
Proof. destruct m as [[]|[]|[]|[]| |]; reflexivity. Qed.

(** On success [jwt.Parse] has seen an HMAC header, a tag made with the secret
    over exactly this header and these claims, and claims that are valid now;
    the token it returns has [Valid] set. *)
Lemma Parse_success_inv t now tokenString tok :
  jwt.Parse now tokenString (keyFunc t) = (tok, None) →
  ∃ alg h claims,
    let sig := jwt.MAC (jwt.SigningMethodHMAC h) (secret t) (Some alg) claims in
    tokenString = jwt.Compact (Some alg) claims sig
    ∧ jwt.GetSigningMethod alg = Some (jwt.SigningMethodHMAC h)
    ∧ jwt.MapClaims_Valid now claims = None
    ∧ tok = Some (jwt.mkToken (jwt.SigningMethodHMAC h) (Some alg) claims (Some sig) true).
Proof.
  unfold jwt.Parse, jwt.ParseUnverified.
  destruct tokenString as [raw | [alg|] claims sig]; try discriminate.
  destruct (jwt.GetSigningMethod alg) as [method|] eqn:Hm; try discriminate.
  destruct method as [h| | | | |]; cbn; try discriminate.
  case_bool_decide as Hsig; cbn; try discriminate.
  destruct (jwt.MapClaims_Valid now claims) eqn:Hv; try discriminate.
  intros Heq. injection Heq as <-. exists alg, h, claims. cbn. by subst sig.
Qed.

Lemma Parse_success t now alg h claims :
  jwt.GetSigningMethod alg = Some (jwt.SigningMethodHMAC h) →
  jwt.MapClaims_Valid now claims = None →
  let sig := jwt.MAC (jwt.SigningMethodHMAC h) (secret t) (Some alg) claims in
  jwt.Parse now (jwt.Compact (Some alg) claims sig) (keyFunc t)
  = (Some (jwt.mkToken (jwt.SigningMethodHMAC h) (Some alg) claims (Some sig) true), None).
Proof.
  intros Hm Hv. unfold jwt.Parse, jwt.ParseUnverified. rewrite Hm. cbn.
  rewrite bool_decide_eq_true_2 by done. cbn. by rewrite Hv.
Qed.

Lemma authentic_iff t now tokenString :
  authentic t now tokenString ↔
  hmac_signed (secret t) tokenString = true
  ∧ jwt.MapClaims_Valid now (claims_of tokenString) = None.
Proof.
  split.
  - intros [token Hp]. apply Parse_success_inv in Hp as (alg & h & claims & -> & Hm & Hv & _).
    cbn. rewrite Hm. by rewrite bool_decide_eq_true_2.
  - destruct tokenString as [raw | [alg|] claims sig]; cbn; try (intros [? _]; discriminate).
    destruct (jwt.GetSigningMethod alg) as [[h| | | | |]|] eqn:Hm;
      try (intros [? _]; discriminate).
    intros [Hsig Hv]. apply bool_decide_eq_true_1 in Hsig as ->.
    eexists. by apply Parse_success.
Qed.

(** Whatever [jwt.Parse] rejects, it rejects with an error. *)
Lemma Parse_total t now tokenString :
  (∃ token, jwt.Parse now tokenString (keyFunc t) = (Some token, None))
  ∨ (∃ tok err, jwt.Parse now tokenString (keyFunc t) = (tok, Some err)).
Proof.
  destruct (jwt.Parse now tokenString (keyFunc t)) as [tok [err|]] eqn:Hp.
  - right. eauto.
  - left. apply Parse_success_inv in Hp as (? & ? & ? & _ & _ & _ & ->). eauto.
Qed.

(** ** Token service *)

Lemma on_rejected_list_string rejected (claims : jwt.MapClaims) jti :
  claims !! "jti" = Some (VString jti) →
  on_rejected_list rejected claims = Return (bool_decide (jti ∈ rejected)).
Proof.
  intros Hjti. induction rejected as [|r rest IH]; cbn.
  - done.
  - rewrite Hjti. cbn. rewrite IH. destruct (decide (r = jti)) as [->|Hne].
    + rewrite (bool_decide_eq_true_2 (jti = jti)) by done.
      rewrite bool_decide_eq_true_2; [done|set_solver].
    + rewrite (bool_decide_eq_false_2 (r = jti)) by done.
      f_equal. apply bool_decide_ext.
      rewrite elem_of_cons. split; [by right | by intros [->|?]].
Qed.

Lemma on_rejected_list_true rejected (claims : jwt.MapClaims) :
  on_rejected_list rejected claims = Return true →
  ∃ jti, claims !! "jti" = Some (VString jti) ∧ jti ∈ rejected.
Proof.
  destruct rejected as [|r rest]; [discriminate|].
  intros H. destruct (claims !! "jti") as [[jti| | | |]|] eqn:Hjti;
    try (cbn in H; rewrite Hjti in H; discriminate).
  exists jti. split; [done|].
  rewrite (on_rejected_list_string _ _ jti Hjti) in H.
  injection H as H. by apply bool_decide_eq_true_1 in H.
Qed.

(** The errors of [jwt.Parse] are validation errors, never [Revoked]. *)
Lemma Parse_error_not_Revoked t now tokenString tok :
  jwt.Parse now tokenString (keyFunc t) ≠ (tok, Some Revoked).
Proof.
  unfold jwt.Parse, jwt.ParseUnverified, Revoked.
  destruct tokenString as [raw | [alg|] claims sig]; try (by intros [=]).
  destruct (jwt.GetSigningMethod alg) as [[h| | | | |]|]; cbn; try (by intros [=]).
  case_bool_decide; cbn; [|by intros [=]].
  destruct (jwt.MapClaims_Valid now claims) as [e|] eqn:Hv; [|by intros [=]].
  unfold jwt.MapClaims_Valid in Hv.
  destruct (jwt.VerifyExpiresAt claims now), (jwt.VerifyIssuedAt claims now),
    (jwt.VerifyNotBefore claims now); vm_compute in Hv; congruence.
Qed.

(** What [ValidateToken] does with a token that [jwt.Parse] accepts and whose
    three claims are strings. *)
Lemma ValidateToken_authentic t now tokenString jti user_id name :
  authentic t now tokenString →
  claims_of tokenString !! "jti" = Some (VString jti) →
  claims_of tokenString !! "user_id" = Some (VString user_id) →
  claims_of tokenString !! "name" = Some (VString name) →
  ValidateToken t now tokenString =
    if bool_decide (jti ∈ rejectedTokens t) then Return (None, Some Revoked)
    else Return (Some (mkUser user_id name "" "" "" "" 0), None).
Proof.
  intros [token Hp] Hjti Hid Hname. unfold ValidateToken. rewrite Hp.
  apply Parse_success_inv in Hp as (alg & h & claims & -> & _ & _ & [= ->]).
  cbn in *. rewrite (on_rejected_list_string _ _ jti Hjti). cbn.
  case_bool_decide; [done|]. by rewrite Hid, Hname.
Qed.

Lemma RejectToken_authentic t now tokenString jti :
  authentic t now tokenString →
  claims_of tokenString !! "jti" = Some (VString jti) →
  RejectToken t now tokenString
  = (mkTokenService (secret t) (rejectedTokens t ++ [jti]), Return None).
Proof.
  intros [token Hp] Hjti. unfold RejectToken. rewrite Hp.
  apply Parse_success_inv in Hp as (alg & h & claims & -> & _ & _ & [= ->]).
  cbn in *. by rewrite Hjti.
Qed.

Lemma RejectToken_not_authentic t now tokenString :
  ¬ authentic t now tokenString →
  ∃ err, (jwt.Parse now tokenString (keyFunc t)).2 = Some err
         ∧ RejectToken t now tokenString = (t, Return (Some err)).
Proof.
  intros Hna. destruct (Parse_total t now tokenString) as [Hp|(tok & err & Hp)].
  - by destruct Hna.
  - exists err. unfold RejectToken. rewrite Hp. by destruct tok.
Qed.

(** The only way [RejectToken] returns without an error is by appending the
    token's ["jti"]. *)
Lemma RejectToken_returns_nil t t' now tokenString :
  RejectToken t now tokenString = (t', Return None) →
  ∃ jti, authentic t now tokenString
         ∧ claims_of tokenString !! "jti" = Some (VString jti)
         ∧ t' = mkTokenService (secret t) (rejectedTokens t ++ [jti]).
Proof.
  unfold RejectToken.
  destruct (jwt.Parse now tokenString (keyFunc t)) as [tok [err|]] eqn:Hp;
    [by destruct tok|].
  pose proof Hp as Hp'.
  apply Parse_success_inv in Hp' as (alg & h & claims & -> & _ & _ & ->).
  cbn. destruct (claims !! "jti") as [[jti| | | |]|] eqn:Hjti; cbn; try (by intros [=]).
  intros [= <-]. exists jti. split; [by eexists|done].
Qed.

(** Time only moves a token from valid to expired: a token accepted at
    [now0] and not expired at a later [now2] is accepted at [now2]. *)
Lemma authentic_later t now0 now2 tokenString :
  authentic t now0 tokenString → (now0 ≤ now2)%Z → expired now2 tokenString = false →
  authentic t now2 tokenString.
Proof.
  rewrite !authentic_iff, !MapClaims_Valid_None. unfold expired.
  intros (Hs & _ & Hiat & Hnbf) Hle Hexp. split; [done|].
  split; [by apply negb_false_iff|].
  unfold jwt.VerifyIssuedAt, jwt.VerifyNotBefore in *.
  split.
  - destruct (claims_of tokenString !! "iat") as [[| iat | | |]|]; try done.
    repeat case_bool_decide; try done. lia.
  - destruct (claims_of tokenString !! "nbf") as [[| nbf | | |]|]; try done.
    repeat case_bool_decide; try done. lia.
Qed.

(** Issue, then verify: the token [GenerateToken] returns is accepted while
    the clock is before its expiry and its identifier is not on the list, and
    the user returned carries the ID and the name, and nothing else. *)
Lemma ValidateToken_GenerateToken t now jti user now' :
  (now' < now + 600)%Z → jti ∉ rejectedTokens t →
  ∃ tokenString,
    GenerateToken t now jti user = (Some tokenString, None)
    ∧ ValidateToken t now' tokenString
      = Return (Some (mkUser (ID user) (Name user) "" "" "" "" 0), None).
Proof.
  intros Hnow Hjti. eexists. split; [reflexivity|].
  erewrite (ValidateToken_authentic _ _ _ jti (ID user) (Name user)).
  - by case_bool_decide.
  - apply authentic_iff. split.
    + cbn. change (jwt.GetSigningMethod "HS256") with (Some jwt.SigningMethodHS256).
      cbn. by rewrite bool_decide_eq_true_2.
    + apply MapClaims_Valid_None. cbn.
      unfold jwt.VerifyExpiresAt, jwt.VerifyIssuedAt, jwt.VerifyNotBefore.
      simplify_map_eq. repeat case_bool_decide; done || lia.
  - cbn. by simplify_map_eq.
  - cbn. by simplify_map_eq.
  - cbn. by simplify_map_eq.
Qed.

(** Revoking the same token twice, when it carries a string ["jti"]: both
    calls return [nil], and the list has the members it has after one call
    (the identifier is on it twice). *)
Lemma RejectToken_twice t now1 now2 tokenString jti :
  authentic t now1 tokenString → authentic t now2 tokenString →
  claims_of tokenString !! "jti" = Some (VString jti) →
  let once := RejectToken t now1 tokenString in
  let twice := RejectToken once.1 now2 tokenString in
  once.2 = Return None ∧ twice.2 = Return None
  ∧ rejectedTokens twice.1 = (rejectedTokens once.1 ++ [jti])%list
  ∧ ∀ x, x ∈ rejectedTokens twice.1 ↔ x ∈ rejectedTokens once.1.
Proof.
  intros Ha1 Ha2 Hjti. cbn zeta.
  rewrite (RejectToken_authentic t now1 _ jti Ha1 Hjti). cbn.
  assert (authentic (mkTokenService (secret t) (rejectedTokens t ++ [jti])) now2 tokenString)
    as Ha2' by (by apply authentic_iff; apply authentic_iff in Ha2).
  rewrite (RejectToken_authentic _ now2 _ jti Ha2' Hjti). cbn.
  repeat split; try done; rewrite !elem_of_app; tauto.
Qed.

(** Verify, revoke, verify: if the revocation returns [nil], the token is
    classified [Revoked] afterwards, as long as it has not expired. *)
Lemma ValidateToken_after_RejectToken t t' now1 now2 tokenString :
  RejectToken t now1 tokenString = (t', Return None) →
  (now1 ≤ now2)%Z → expired now2 tokenString = false →
  ValidateToken t' now2 tokenString = Return (None, Some Revoked).
Proof.
  intros Hr Hle Hexp.
  apply RejectToken_returns_nil in Hr as (jti & Ha & Hjti & ->).
  pose proof (authentic_later _ _ _ _ Ha Hle Hexp) as Ha2.
  destruct Ha2 as [token Hp]. unfold ValidateToken.
  assert (keyFunc (mkTokenService (secret t) (rejectedTokens t ++ [jti])) = keyFunc t)
    as -> by done.
  rewrite Hp.
  apply Parse_success_inv in Hp as (alg & h & claims & -> & _ & _ & [= ->]).
  cbn in *. rewrite (on_rejected_list_string _ _ jti Hjti). cbn.
  rewrite bool_decide_eq_true_2; [done|set_solver].
Qed.

(** C2, at a failing input.  [GenerateToken] embeds the role of [alice] in the
    claims of the token it issues; [ValidateToken] accepts that token a
    second later and returns her ID and her name, but a user whose [Role] is
    empty: the role embedded at issuance does not come back. *)
Theorem ValidateToken_drops_role :
  GenerateToken main_tokenService 1000 "j1" alice = (Some alice_token, None)
  ∧ claims_of alice_token !! "role" = Some (VString (Role alice))
  ∧ (∃ user, ValidateToken main_tokenService 1001 alice_token = Return (Some user, None)
             ∧ ID user = ID alice ∧ Name user = Name alice
             ∧ Role user = "" ∧ Role user ≠ Role alice).
Proof.
  split; [by vm_compute|]. split; [by vm_compute|].
  eexists. split; [by vm_compute|]. by cbn.
Qed.

(** C3, at failing inputs.  Each of the three tokens is correctly signed with
    the service's secret and unexpired at time 1000, and each makes a core
    operation panic: [ValidateToken] on a token without ["jti"] as soon as the
    rejected list is not empty, on a token without ["user_id"], and on a token
    whose ["name"] is a number; [RejectToken] on a token without ["jti"]. *)
Theorem token_operations_panic :
  authentic main_tokenService 1000 token_without_jti
  ∧ authentic main_tokenService 1000 token_without_user_id
  ∧ authentic main_tokenService 1000 token_with_numeric_name
  ∧ ValidateToken (mkTokenService "secret" ["j0"]) 1000 token_without_jti
    = Panic "interface conversion: interface {} is nil, not string"
  ∧ ValidateToken main_tokenService 1000 token_without_user_id
    = Panic "interface conversion: interface {} is nil, not string"
  ∧ ValidateToken main_tokenService 1000 token_with_numeric_name
    = Panic "interface conversion: interface {} is not string"
  ∧ (RejectToken main_tokenService 1000 token_without_jti).2
    = Panic "interface conversion: interface {} is nil, not string".
Proof.
  repeat split; try (apply authentic_iff); by vm_compute.
Qed.

(** C4, at a failing input.  [token_without_jti] is authentic (signed with the
    secret, unexpired), yet the first call of [RejectToken] on it already
    panics instead of returning without error; the list is left as it was. *)
Theorem RejectToken_panics_on_authentic_token :
  hmac_signed (secret main_tokenService) token_without_jti = true
  ∧ expired 1000 token_without_jti = false
  ∧ authentic main_tokenService 1000 token_without_jti
  ∧ RejectToken main_tokenService 1000 token_without_jti
    = (main_tokenService, Panic "interface conversion: interface {} is nil, not string").
Proof.
  repeat split; try (apply authentic_iff); by vm_compute.
Qed.

(** The two readings of expiry agree except on an ["exp"] of 0: a token the
    service does not treat as expired, and whose expiry the clock has
    reached, has an ["exp"] of 0. *)
Lemma past_expiry_not_expired now tokenString :
  expired now tokenString = false → past_expiry now tokenString = true →
  claims_of tokenString !! "exp" = Some (VNumber 0).
Proof.
  unfold expired, past_expiry, jwt.VerifyExpiresAt.
  destruct (claims_of tokenString !! "exp") as [[| exp | | |]|]; try done.
  repeat case_bool_decide; try done; [by subst|lia].
Qed.

Lemma past_expiry_expired now tokenString :
  past_expiry now tokenString = true →
  claims_of tokenString !! "exp" ≠ Some (VNumber 0) →
  expired now tokenString = true.
Proof.
  intros Hpast Hne. destruct (expired now tokenString) eqn:Hexp; [done|].
  by destruct Hne; apply (past_expiry_not_expired now).
Qed.

(** [jwt.Parse] flags an error as expired only after the signature has been
    verified, and only when the expiry check has failed. *)
Lemma Parse_Expired_after_signature t now tokenString tok inner errs :
  jwt.Parse now tokenString (keyFunc t) = (tok, Some (ValidationError inner errs)) →
  Z.land errs jwt.ValidationErrorExpired ≠ 0 →
  hmac_signed (secret t) tokenString = true ∧ expired now tokenString = true.
Proof.
  unfold jwt.Parse, jwt.ParseUnverified, expired.
  destruct tokenString as [raw | [alg|] claims sig];
    try (intros [= <- <- <-]; by vm_compute).
  cbn [hmac_signed claims_of].
  destruct (jwt.GetSigningMethod alg) as [[h| | | | |]|]; cbn;
    try (intros [= <- <- <-]; by vm_compute).
  case_bool_decide as Hsig; cbn; [|intros [= <- <- <-]; by vm_compute].
  destruct (jwt.MapClaims_Valid now claims) as [e|] eqn:Hv; [|by intros [=]].
  intros [= _ ->]. unfold jwt.MapClaims_Valid in Hv.
  destruct (jwt.VerifyExpiresAt claims now), (jwt.VerifyIssuedAt claims now),
    (jwt.VerifyNotBefore claims now); vm_compute in Hv; try done;
    injection Hv as <- <-; by vm_compute.
Qed.

(** C5, the claim as worded fails.  [token_with_exp_zero] is signed with the
    secret and carries an expiry of 0, which the clock reading 1000 is past;
    with its identifier on the list, [ValidateToken] classifies it as
    [Revoked] all the same, because the library reads an ["exp"] of 0 as no
    expiry. *)
Theorem exp_zero_token_classified_Revoked :
  hmac_signed "secret" token_with_exp_zero = true
  ∧ claims_of token_with_exp_zero !! "exp" = Some (VNumber 0)
  ∧ past_expiry 1000 token_with_exp_zero = true
  ∧ ValidateToken (mkTokenService "secret" ["j1"]) 1000 token_with_exp_zero
    = Return (None, Some Revoked).
Proof. repeat split; by vm_compute. Qed.

(** C5, as amended.  The signature and structure checks come before the
    expiry check, and the expiry check before the revocation check: when
    [ValidateToken] reports [Revoked] or an error flagged as expired, the
    token is not malformed, declares an HMAC method and carries a tag made
    with the service's secret over its own header and claims.  When it
    reports [Revoked], the token is moreover not expired for the service at
    the time of the call: the clock is before its ["exp"], or it has no
    ["exp"], or an ["exp"] of 0.  An error flagged as expired is reported for
    a signed token only. *)
Theorem Revoked_only_if_signed_and_unexpired t now tokenString user err :
  ValidateToken t now tokenString = Return (user, Some err) →
  err = Revoked
  ∨ (∃ inner errs, err = ValidationError inner errs
                   ∧ Z.land errs jwt.ValidationErrorExpired ≠ 0) →
  malformed tokenString = false
  ∧ unexpected_algorithm tokenString = false
  ∧ hmac_signed (secret t) tokenString = true
  ∧ (err = Revoked →
       expired now tokenString = false
       ∧ (past_expiry now tokenString = true →
          claims_of tokenString !! "exp" = Some (VNumber 0)))
  ∧ (err ≠ Revoked → expired now tokenString = true).
Proof.
  intros Hv Herr.
  assert (hmac_signed (secret t) tokenString = true
          ∧ (err = Revoked → expired now tokenString = false)
          ∧ (err ≠ Revoked → expired now tokenString = true)) as (Hs & Hrev & Hexp).
  { unfold ValidateToken in Hv.
    destruct (jwt.Parse now tokenString (keyFunc t)) as [tok [e|]] eqn:Hp.
    - assert (e = err) as -> by (by destruct tok; injection Hv).
      destruct Herr as [->|(inner & errs & -> & Hflag)].
      + by apply Parse_error_not_Revoked in Hp.
      + destruct (Parse_Expired_after_signature _ _ _ _ _ _ Hp Hflag) as [Hs Hexp].
        by repeat split.
    - assert (authentic t now tokenString) as Ha.
      { pose proof Hp as Hp'.
        apply Parse_success_inv in Hp' as (? & ? & ? & _ & _ & _ & ->). by eexists. }
      apply authentic_iff in Ha as [Hs Hvalid].
      apply MapClaims_Valid_None in Hvalid as (Hexp & _).
      assert (err = Revoked) as ->.
      { apply Parse_success_inv in Hp as (alg & h & claims & _ & _ & _ & ->).
        cbn in Hv.
        destruct (on_rejected_list (rejectedTokens t) claims) as [[|]|]; cbn in Hv;
          [by injection Hv|..|done].
        destruct (assert_string (claims !! "user_id")); cbn in Hv; [|done].
        by destruct (assert_string (claims !! "name")). }
      split; [done|]. split; [|done]. intros _. unfold expired. by rewrite Hexp. }
  assert (malformed tokenString = false ∧ unexpected_algorithm tokenString = false)
    as [Hm Hu].
  { destruct tokenString as [raw | [alg|] claims sig]; cbn in *; try done.
    by destruct (jwt.GetSigningMethod alg) as [[h| | | | |]|]. }
  repeat split; try done.
  - by apply Hrev.
  - intros Hpast. apply (past_expiry_not_expired now); [by apply Hrev|done].
Qed.

Lemma Revoked_only_if_signed_and_unexpired_witness :
  ValidateToken (mkTokenService "secret" ["j1"]) 1001 alice_token
  = Return (None, Some Revoked)
  ∧ malformed alice_token = false
  ∧ unexpected_algorithm alice_token = false
  ∧ hmac_signed "secret" alice_token = true
  ∧ expired 1001 alice_token = false.
Proof.
  assert (ValidateToken (mkTokenService "secret" ["j1"]) 1001 alice_token
          = Return (None, Some Revoked)) as Hv by (by vm_compute).
  split; [exact Hv|].
  destruct (Revoked_only_if_signed_and_unexpired (mkTokenService "secret" ["j1"]) 1001
              alice_token None Revoked Hv (or_introl eq_refl))
    as (Hm & Hu & Hs & Hrev & _).
  split; [exact Hm|]. split; [exact Hu|]. split; [exact Hs|].
  exact (proj1 (Hrev eq_refl)).
Defined.

(** C6, at a failing input.  With nothing revoked yet, [token_without_jti]
    verifies successfully; [RejectToken] on it panics and leaves the list
    unchanged; the token verifies successfully again afterwards. *)
Theorem token_without_jti_survives_RejectToken :
  ∃ user,
    ValidateToken main_tokenService 1000 token_without_jti = Return (Some user, None)
    ∧ RejectToken main_tokenService 1001 token_without_jti
      = (main_tokenService, Panic "interface conversion: interface {} is nil, not string")
    ∧ expired 1002 token_without_jti = false
    ∧ ValidateToken (RejectToken main_tokenService 1001 token_without_jti).1 1002
        token_without_jti = Return (Some user, None).
Proof. eexists. repeat split; by vm_compute. Qed.

(** C10, the claim as worded fails.  [token_with_exp_zero] is signed with the
    secret and its expiry of 0 is long past at the clock reading 1000, yet
    [RejectToken] returns [nil] for it and adds its identifier to the list:
    the library reads an ["exp"] of 0 as no expiry. *)
Theorem exp_zero_token_can_be_revoked :
  hmac_signed "secret" token_with_exp_zero = true
  ∧ claims_of token_with_exp_zero !! "exp" = Some (VNumber 0)
  ∧ past_expiry 1000 token_with_exp_zero = true
  ∧ RejectToken main_tokenService 1000 token_with_exp_zero
    = (mkTokenService "secret" ["j1"], Return None)
  ∧ GetRejectedTokens (RejectToken main_tokenService 1000 token_with_exp_zero).1
    ≠ GetRejectedTokens main_tokenService.
Proof. repeat split; by vm_compute. Qed.

(** C10, as amended.  A token that is malformed, or declares a method other
    than an HMAC, or whose tag is not the one the secret gives, or that is
    expired for the service (in particular one whose ["exp"] is not 0 and has
    been reached by the clock), is refused by [RejectToken] with the error of
    [jwt.Parse], and the rejected list is what it was: the identifier of such
    a token is not added. *)
Theorem RejectToken_failure_leaves_list_unchanged t now tokenString :
  malformed tokenString = true ∨ unexpected_algorithm tokenString = true
  ∨ hmac_signed (secret t) tokenString = false ∨ expired now tokenString = true
  ∨ (past_expiry now tokenString = true
     ∧ claims_of tokenString !! "exp" ≠ Some (VNumber 0)) →
  ∃ err, (jwt.Parse now tokenString (keyFunc t)).2 = Some err
         ∧ RejectToken t now tokenString = (t, Return (Some err))
         ∧ GetRejectedTokens (RejectToken t now tokenString).1 = GetRejectedTokens t.
Proof.
  intros Hbad.
  assert (malformed tokenString = true ∨ unexpected_algorithm tokenString = true
          ∨ hmac_signed (secret t) tokenString = false
          ∨ expired now tokenString = true) as Hbad'.
  { destruct Hbad as [?|[?|[?|[?|[Hpast Hne]]]]]; [tauto..|].
    right. right. right. by apply past_expiry_expired. }
  clear Hbad.
  destruct (RejectToken_not_authentic t now tokenString) as (err & Hp & Hr).
  - rewrite authentic_iff, MapClaims_Valid_None. unfold expired in Hbad'.
    intros (Hs & Hexp & _). rewrite Hexp, Hs in Hbad'.
    destruct tokenString as [raw | [alg|] claims sig]; cbn in *; try done.
    destruct (jwt.GetSigningMethod alg) as [[h| | | | |]|]; try done.
    by destruct Hbad' as [|[|[|]]].
  - exists err. by rewrite Hr.
Qed.

Lemma RejectToken_failure_leaves_list_unchanged_witness :
  (past_expiry 1600 alice_token = true
   ∧ claims_of alice_token !! "exp" ≠ Some (VNumber 0))
  ∧ ∃ err, (jwt.Parse 1600 alice_token (keyFunc main_tokenService)).2 = Some err
         ∧ RejectToken main_tokenService 1600 alice_token
           = (main_tokenService, Return (Some err))
         ∧ GetRejectedTokens (RejectToken main_tokenService 1600 alice_token).1
           = GetRejectedTokens main_tokenService.
Proof.
  assert (past_expiry 1600 alice_token = true
          ∧ claims_of alice_token !! "exp" ≠ Some (VNumber 0)) as H
    by (split; by vm_compute).
  split; [exact H|].
  apply (RejectToken_failure_leaves_list_unchanged main_tokenService 1600 alice_token).
  right. right. right. right. exact H.
Defined.

(** ** Provisioning pipeline *)

(** Open the five clauses of [Inv]. *)
Ltac split_Inv := split; [|split; [|split; [|split]]].

Lemma count_updates_snoc id l u :
  count_updates id (l ++ [u])
  = (count_updates id l
     + if decide (DeploymentUpdate.DeploymentID u = id) then 1 else 0)%nat.
Proof.
  unfold count_updates. rewrite filter_app, length_app. f_equal.
  rewrite filter_cons, filter_nil. by case_decide.
Qed.

Lemma count_updates_absent id l :
  (∀ u, u ∈ l → DeploymentUpdate.DeploymentID u ≠ id) → count_updates id l = 0%nat.
Proof.
  unfold count_updates. induction l as [|u l IH]; intros Hl; [done|].
  rewrite filter_cons. case_decide as Hu.
  - exfalso. eapply Hl; [left|done].
  - apply IH. intros u' Hu'. apply Hl. by right.
Qed.

(** The loop body on a stored deployment: the status becomes created, and the
    ID and the resource identifier stay what they were. *)
Lemma UpdateDeploymentStatus_iter_present s update d :
  deployments s !! DeploymentUpdate.DeploymentID update = Some d →
  deployments (UpdateDeploymentStatus_iter s update)
  = <[DeploymentUpdate.DeploymentID update :=
        VMDeployment.mk (VMDeployment.ID d) (VMDeployment.ResourceID d) "created"]>
      (deployments s)
  ∧ tasks (UpdateDeploymentStatus_iter s update) = tasks s
  ∧ vms (UpdateDeploymentStatus_iter s update) = vms s
  ∧ updateChannel (UpdateDeploymentStatus_iter s update) = updateChannel s.
Proof. intros Hd. unfold UpdateDeploymentStatus_iter. by rewrite Hd. Qed.

(** The loop body on an update naming no stored deployment: dropped. *)
Lemma UpdateDeploymentStatus_iter_absent s update :
  deployments s !! DeploymentUpdate.DeploymentID update = None →
  UpdateDeploymentStatus_iter s update = s.
Proof. intros Hd. unfold UpdateDeploymentStatus_iter. by rewrite Hd. Qed.

Lemma Inv_initial : Inv initial.
Proof.
  unfold Inv, pending; cbn. split_Inv.
  - intros id d Hd. by rewrite lookup_empty in Hd.
  - constructor.
  - intros id Hid. by apply elem_of_nil in Hid.
  - intros u Hu. by apply elem_of_nil in Hu.
  - intros task Htask. by apply elem_of_nil in Htask.
Qed.

Lemma Inv_Call_CreateVM sys createVMBody taskID deploymentID sys' :
  Inv sys → step sys (Call_CreateVM createVMBody taskID deploymentID) = Some sys' →
  Inv sys'.
Proof.
  intros (Hdep & Hnd & Hpend & Hproc & Htask). cbn.
  case_bool_decide as Hfresh; [|done]. destruct Hfresh as (Htid & Hdid & Hne).
  intros [= <-].
  match goal with |- Inv ?s' =>
    assert (pending s' ≡ₚ deploymentID :: pending sys) as Hp
  end.
  { unfold pending; cbn. rewrite fmap_app, <- app_assoc. cbn.
    symmetry. apply Permutation_middle. }
  match type of Hp with ?p' ≡ₚ _ =>
    assert (∀ id, id ∈ p' ↔ id = deploymentID ∨ id ∈ pending sys) as Hin
      by (intros id; by rewrite Hp, elem_of_cons);
    assert (NoDup p' ↔ (deploymentID ∉ pending sys) ∧ NoDup (pending sys)) as Hnd'
      by (by rewrite Hp, NoDup_cons)
  end.
  clear Hp. unfold Inv, updates_processed in *. cbn [service issued processed tasks deployments].
  split_Inv.
  - intros id d. rewrite lookup_insert. case_decide as Hid.
    + subst id. intros [= <-]. cbn. do 2 (split; [done|]).
      split; [rewrite elem_of_app, !elem_of_cons; auto|].
      left. split; [|split; [done|apply Hin; by left]].
      apply count_updates_absent. intros u Hu Heq. apply Hdid. rewrite <- Heq. by apply Hproc.
    + intros Hd. destruct (Hdep id d Hd) as (H1 & H2 & H3 & H4).
      do 2 (split; [done|]). split; [rewrite elem_of_app; auto|].
      destruct H4 as [(Hc & Hs & Hq)|(Hc & Hs & Hq)]; [left|right];
        (split; [done|split; [done|]]).
      * apply Hin. by right.
      * rewrite Hin. by intros [?|?].
  - apply Hnd'. split; [|done]. intros Hq. by apply Hdid, Hpend.
  - intros id [->|Hq]%Hin; rewrite elem_of_app, !elem_of_cons; auto.
  - intros u Hu. rewrite elem_of_app. left. by apply Hproc.
  - intros task. rewrite !elem_of_app, list_elem_of_singleton, !elem_of_cons.
    intros [Ht| ->]; [left; by apply Htask|cbn; auto].
Qed.

Lemma Inv_Run_simulateVMCreation sys i vmID sys' :
  Inv sys → step sys (Run_simulateVMCreation i vmID) = Some sys' → Inv sys'.
Proof.
  intros (Hdep & Hnd & Hpend & Hproc & Htask). cbn.
  destruct (spawned sys !! i) as [[deploymentID createVMBody]|] eqn:Hi; [|done].
  case_bool_decide as Hfresh; [|done]. intros [= <-].
  match goal with |- Inv ?s' => assert (pending s' ≡ₚ pending sys) as Hp end.
  { unfold pending; cbn. rewrite fmap_app. cbn.
    rewrite (delete_Permutation (spawned sys) i _ Hi) at 2. cbn.
    rewrite app_assoc. symmetry. apply Permutation_cons_append. }
  unfold Inv, updates_processed in *. rewrite Hp.
  cbn [service issued processed tasks deployments simulateVMCreation].
  split_Inv; [|done| | |].
  - intros id d Hd. destruct (Hdep id d Hd) as (H1 & H2 & H3 & H4).
    do 2 (split; [done|]). split; [rewrite elem_of_app; auto|].
    by setoid_rewrite Hp.
  - intros id Hq. rewrite elem_of_app. left. apply Hpend. by rewrite <- Hp.
  - intros u Hu. rewrite elem_of_app. left. by apply Hproc.
  - intros task Ht. rewrite elem_of_app. left. by apply Htask.
Qed.

Lemma UpdateDeploymentStatus_iter_tasks s update :
  tasks (UpdateDeploymentStatus_iter s update) = tasks s.
Proof.
  unfold UpdateDeploymentStatus_iter.
  by destruct (deployments s !! DeploymentUpdate.DeploymentID update).
Qed.

Lemma UpdateDeploymentStatus_iter_updateChannel s update :
  updateChannel (UpdateDeploymentStatus_iter s update) = updateChannel s.
Proof.
  unfold UpdateDeploymentStatus_iter.
  by destruct (deployments s !! DeploymentUpdate.DeploymentID update).
Qed.

(** The loop body, read through the map: the named entry gets status
    created, every other entry is untouched, and no entry appears or
    disappears. *)
Lemma UpdateDeploymentStatus_iter_lookup s update id :
  deployments (UpdateDeploymentStatus_iter s update) !! id
  = if decide (id = DeploymentUpdate.DeploymentID update)
    then (λ d, VMDeployment.mk (VMDeployment.ID d) (VMDeployment.ResourceID d) "created")
           <$> deployments s !! id
    else deployments s !! id.
Proof.
  unfold UpdateDeploymentStatus_iter.
  destruct (deployments s !! DeploymentUpdate.DeploymentID update) as [d0|] eqn:Hd0; cbn.
  - rewrite lookup_insert. repeat case_decide; try congruence. subst id. by rewrite Hd0.
  - case_decide; [|done]. subst id. by rewrite Hd0.
Qed.

Lemma Inv_Loop_receive sys i sys' :
  Inv sys → step sys (Loop_receive i) = Some sys' → Inv sys'.
Proof.
  intros (Hdep & Hnd & Hpend & Hproc & Htask). cbn.
  destruct (updateChannel (service sys) !! i) as [update|] eqn:Hi; [|done].
  intros [= <-]. set (name := DeploymentUpdate.DeploymentID update).
  match goal with |- Inv ?s' => assert (pending sys ≡ₚ name :: pending s') as Hp end.
  { unfold pending; cbn. rewrite UpdateDeploymentStatus_iter_updateChannel. cbn.
    rewrite (delete_Permutation (updateChannel (service sys)) i _ Hi) at 1.
    rewrite fmap_cons. fold name. symmetry. apply Permutation_middle. }
  match type of Hp with _ ≡ₚ _ :: ?p' =>
    assert (∀ id, id ∈ pending sys ↔ id = name ∨ id ∈ p') as Hin
      by (intros id; by rewrite Hp, elem_of_cons);
    assert ((name ∉ p') ∧ NoDup p') as [Hname Hnd']
      by (by rewrite Hp, NoDup_cons in Hnd)
  end.
  clear Hp. unfold Inv, updates_processed.
  cbn [service issued processed].
  split_Inv; [|done| | |].
  - intros id d. rewrite UpdateDeploymentStatus_iter_lookup. cbn [deployments]. fold name.
    rewrite count_updates_snoc. fold name. case_decide as Hid.
    + subst id. destruct (deployments (service sys) !! name) as [d0|] eqn:Hd0; [|done].
      intros [= <-]. cbn. destruct (Hdep name d0 Hd0) as (H1 & H2 & H3 & H4).
      do 3 (split; [done|]). right. split; [|done].
      unfold updates_processed in H4. rewrite Hin in H4.
      destruct H4 as [(Hc & _)|(_ & _ & Hq)]; [|destruct Hq; by left].
      rewrite Hc. by rewrite decide_True.
    + intros Hd. destruct (Hdep id d Hd) as (H1 & H2 & H3 & H4).
      do 3 (split; [done|]). rewrite decide_False by done. rewrite Nat.add_0_r.
      unfold updates_processed in H4. rewrite Hin in H4.
      destruct H4 as [(Hc & Hs & [?|Hq])|(Hc & Hs & Hq)]; [done|left|right]; auto 6.
  - intros id Hq. apply Hpend, Hin. by right.
  - intros u. rewrite elem_of_app, list_elem_of_singleton.
    intros [Hu| ->]; [by apply Hproc|]. apply Hpend, Hin. by left.
  - rewrite UpdateDeploymentStatus_iter_tasks. apply Htask.
Qed.

Lemma step_Inv sys e sys' : Inv sys → step sys e = Some sys' → Inv sys'.
Proof.
  destruct e as [createVMBody taskID deploymentID | i vmID | i].
  - apply Inv_Call_CreateVM.
  - apply Inv_Run_simulateVMCreation.
  - apply Inv_Loop_receive.
Qed.

Lemma run_Inv trace : ∀ sys sys', Inv sys → run trace sys = Some sys' → Inv sys'.
Proof.
  induction trace as [|e trace IH]; intros sys sys' Hinv; cbn.
  - by intros [= <-].
  - destruct (step sys e) as [sys1|] eqn:Hstep; [|done].
    apply IH. by eapply step_Inv.
Qed.

Lemma reachable_Inv sys : reachable sys → Inv sys.
Proof. intros [trace Hrun]. eapply run_Inv; [apply Inv_initial|done]. Qed.

(** A step never removes a deployment and never takes one out of status
    created. *)
Lemma step_deployment_kept sys e sys' id d :
  Inv sys → step sys e = Some sys' → deployments (service sys) !! id = Some d →
  ∃ d', deployments (service sys') !! id = Some d'
        ∧ (VMDeployment.Status d = "created" → VMDeployment.Status d' = "created").
Proof.
  intros (Hdep & _) Hstep Hd. destruct e as [createVMBody taskID deploymentID | i vmID | i];
    cbn in Hstep.
  - case_bool_decide as Hfresh; [|done]. destruct Hfresh as (_ & Hdid & _).
    injection Hstep as <-. cbn. exists d. split; [|done].
    rewrite lookup_insert_ne; [done|]. intros ->. by apply Hdid, (Hdep id d).
  - destruct (spawned sys !! i) as [[deploymentID createVMBody]|]; [|done].
    case_bool_decide; [|done]. injection Hstep as <-. cbn. by exists d.
  - destruct (updateChannel (service sys) !! i) as [update|]; [|done].
    injection Hstep as <-. cbn. rewrite UpdateDeploymentStatus_iter_lookup. cbn.
    rewrite Hd. case_decide; cbn; eauto.
Qed.

Lemma run_deployment_kept trace : ∀ sys sys' id d,
  Inv sys → run trace sys = Some sys' → deployments (service sys) !! id = Some d →
  ∃ d', deployments (service sys') !! id = Some d'
        ∧ (VMDeployment.Status d = "created" → VMDeployment.Status d' = "created").
Proof.
  induction trace as [|e trace IH]; intros sys sys' id d Hinv; cbn.
  - intros [= <-] Hd. eauto.
  - destruct (step sys e) as [sys1|] eqn:Hstep; [|done]. intros Hrun Hd.
    destruct (step_deployment_kept _ _ _ _ _ Hinv Hstep Hd) as (d1 & Hd1 & Hc1).
    destruct (IH sys1 sys' id d1 (step_Inv _ _ _ Hinv Hstep) Hrun Hd1) as (d' & Hd' & Hc').
    exists d'. split; [done|]. auto.
Qed.

(** In every state the pipeline reaches, every deployment has an empty
    resource identifier: nothing ever writes the field. *)
Lemma reachable_ResourceID_empty sys id d :
  reachable sys → deployments (service sys) !! id = Some d →
  VMDeployment.ResourceID d = "".
Proof. intros Hr Hd. apply reachable_Inv in Hr as (Hdep & _). by apply (Hdep id d). Qed.

(** C1, at a failing input.  The deployment of web1 is stored and in
    progress, and the loop receives the update that names it and carries the
    resource identifier v1.  The deployment becomes created, but its resource
    identifier is still empty: the update's [ResourceID] is not recorded.
    The same is seen through [ListDeployments] after the whole scenario. *)
Theorem UpdateDeploymentStatus_drops_ResourceID :
  deployments web1_in_progress !! DeploymentUpdate.DeploymentID web1_update
  = Some (web1_deployment "in-progress")
  ∧ DeploymentUpdate.ResourceID web1_update = "v1"
  ∧ deployments (UpdateDeploymentStatus web1_in_progress [web1_update]) !! "d1"
    = Some (web1_deployment "created")
  ∧ VMDeployment.ResourceID (web1_deployment "created") = ""
  ∧ run web1_trace initial = Some web1_reconciled
  ∧ (ListDeployments (service web1_reconciled)).1 = [web1_deployment "created"].
Proof. repeat split; by vm_compute. Qed.

(** C7.  In every state the pipeline reaches, a stored deployment is in
    progress exactly as long as the loop has received no update naming it,
    and created once it has received one; the loop never receives a second,
    and no other status occurs.  From then on, whatever the pipeline does, the
    deployment stays stored, and stays created if it was.  (UUIDs never
    repeat, as [step] has it.) *)
Theorem deployment_lifecycle (trace : list Event) (sys : System) (id : string)
    (d : VMDeployment.t) :
  run trace initial = Some sys →
  deployments (service sys) !! id = Some d →
  ((updates_processed sys id = 0%nat ∧ VMDeployment.Status d = "in-progress")
   ∨ (updates_processed sys id = 1%nat ∧ VMDeployment.Status d = "created"))
  ∧ ∀ trace' sys', run trace' sys = Some sys' →
      ∃ d', deployments (service sys') !! id = Some d'
            ∧ (VMDeployment.Status d = "created" → VMDeployment.Status d' = "created").
Proof.
  intros Hrun Hd. assert (Inv sys) as Hinv by (apply reachable_Inv; by exists trace).
  split.
  - destruct Hinv as (Hdep & _). destruct (Hdep id d Hd) as (_ & _ & _ & [H|H]);
      [left|right]; tauto.
  - intros trace' sys' Hrun'. by eapply run_deployment_kept.
Qed.

Lemma deployment_lifecycle_witness :
  run web1_trace initial = Some web1_reconciled
  ∧ deployments (service web1_reconciled) !! "d1" = Some (web1_deployment "created")
  ∧ ((updates_processed web1_reconciled "d1" = 0%nat
      ∧ VMDeployment.Status (web1_deployment "created") = "in-progress")
     ∨ (updates_processed web1_reconciled "d1" = 1%nat
        ∧ VMDeployment.Status (web1_deployment "created") = "created"))
  ∧ ∀ trace' sys', run trace' web1_reconciled = Some sys' →
      ∃ d', deployments (service sys') !! "d1" = Some d'
            ∧ (VMDeployment.Status (web1_deployment "created") = "created"
               → VMDeployment.Status d' = "created").
Proof.
  split; [by vm_compute|]. split; [by vm_compute|].
  apply (deployment_lifecycle web1_trace web1_reconciled "d1" (web1_deployment "created"));
    by vm_compute.
Defined.

(** C8.  Called in any state the pipeline reaches, with two UUIDs that have
    not been drawn before, [CreateVM] returns a task and no error; the task
    carries the first UUID, which no earlier task carries, and the second as
    its deployment ID; under that ID, which was not in the map, the map now
    holds a deployment in progress, which [ListDeployments] shows; the task is
    appended to the task list; and the goroutine for this deployment has been
    started. *)
Theorem CreateVM_synchronous_step (sys : System) (createVMBody : CreateVMBody.t)
    (taskID deploymentID : string) :
  reachable sys → taskID ∉ issued sys → deploymentID ∉ issued sys →
  ∃ s' task deployment,
    CreateVM (service sys) taskID deploymentID createVMBody
    = (s', go_simulateVMCreation deploymentID createVMBody, (Some task, None))
    ∧ deployment = VMDeployment.mk deploymentID "" "in-progress"
    ∧ deployments (service sys) !! deploymentID = None
    ∧ deployments s' !! deploymentID = Some deployment
    ∧ deployment ∈ (ListDeployments s').1
    ∧ tasks s' = (tasks (service sys) ++ [task])%list
    ∧ VMCreationTask.DeploymentID task = VMDeployment.ID deployment
    ∧ VMCreationTask.TaskID task = taskID
    ∧ ∀ earlier, earlier ∈ tasks (service sys) →
        VMCreationTask.TaskID earlier ≠ VMCreationTask.TaskID task.
Proof.
  intros Hr Htid Hdid. apply reachable_Inv in Hr as (Hdep & _ & _ & _ & Htask).
  eexists _, _, _. split; [reflexivity|]. cbn.
  split; [done|]. split; [|split; [|split; [|split; [|split; [|split]]]]]; try done.
  - destruct (deployments (service sys) !! deploymentID) as [d|] eqn:Hd; [|done].
    destruct Hdid. by apply (Hdep _ d).
  - by rewrite lookup_insert_eq.
  - apply list_elem_of_fmap. eexists (deploymentID, _). split; [done|].
    apply elem_of_map_to_list. by rewrite lookup_insert_eq.
  - intros earlier He Heq. apply Htid. rewrite <- Heq. by apply Htask.
Qed.

Lemma CreateVM_synchronous_step_witness :
  reachable initial ∧ ("t1" ∉ issued initial) ∧ ("d1" ∉ issued initial)
  ∧ ∃ s' task deployment,
    CreateVM (service initial) "t1" "d1" web1
    = (s', go_simulateVMCreation "d1" web1, (Some task, None))
    ∧ deployment = VMDeployment.mk "d1" "" "in-progress"
    ∧ deployments (service initial) !! "d1" = None
    ∧ deployments s' !! "d1" = Some deployment
    ∧ deployment ∈ (ListDeployments s').1
    ∧ tasks s' = (tasks (service initial) ++ [task])%list
    ∧ VMCreationTask.DeploymentID task = VMDeployment.ID deployment
    ∧ VMCreationTask.TaskID task = "t1"
    ∧ ∀ earlier, earlier ∈ tasks (service initial) →
        VMCreationTask.TaskID earlier ≠ VMCreationTask.TaskID task.
Proof.
  assert (reachable initial) as Hr by (by exists []).
  assert ("t1" ∉ issued initial) as Ht by apply not_elem_of_nil.
  assert ("d1" ∉ issued initial) as Hd by apply not_elem_of_nil.
  split; [exact Hr|]. split; [exact Ht|]. split; [exact Hd|].
  exact (CreateVM_synchronous_step initial web1 "t1" "d1" Hr Ht Hd).
Defined.

(** C9, counterexample.  The request [nameless] has an empty name, and
    [CreateVM] returns no error for it. *)
Lemma CreateVM_accepts_empty_name :
  CreateVMBody.Name nameless = ""
  ∧ ¬ ∃ err, (CreateVM NewVMService "t1" "d1" nameless).2.2 = Some err.
Proof. split; [done|]. by intros [err [=]]. Qed.

(** C9, as amended.  [CreateVM] validates nothing and never fails: for every
    state, every pair of UUIDs and every request, an empty name included, it
    returns a task and a nil error. *)
Theorem CreateVM_never_fails (s : vmService) (taskID deploymentID : string)
    (createVMBody : CreateVMBody.t) :
  ∃ task, (CreateVM s taskID deploymentID createVMBody).2 = (Some task, None)
          ∧ VMCreationTask.TaskID task = taskID
          ∧ VMCreationTask.DeploymentID task = deploymentID.
Proof. by eexists. Qed.

(** * Further properties *)

Local Open Scope list_scope.

(** ** User service *)

(** Where the range loops stop: at the first user with the ID, if there is
    one. *)
Lemma range_index_Some l id k i :
  range_index l id k = Some i →
  ∃ l1 u l2, l = l1 ++ u :: l2 ∧ ID u = id ∧ (id ∉ ID <$> l1)
             ∧ i = (k + length l1)%nat.
Proof.
  revert k. induction l as [|u0 l IH]; intros k; cbn; [done|].
  case_bool_decide as Hu.
  - intros [= <-]. exists [], u0, l. repeat split; [done| |cbn; lia].
    cbn. apply not_elem_of_nil.
  - intros Hi. destruct (IH _ Hi) as (l1 & u & l2 & -> & Hid & Hl1 & ->).
    exists (u0 :: l1), u, l2. repeat split; [done| |cbn; lia].
    rewrite fmap_cons, not_elem_of_cons. split; [congruence|done].
Qed.

Lemma range_index_None l id k :
  range_index l id k = None ↔ id ∉ ID <$> l.
Proof.
  revert k. induction l as [|u0 l IH]; intros k; cbn.
  - split; [intros _; apply not_elem_of_nil|done].
  - rewrite not_elem_of_cons. case_bool_decide as Hu.
    + split; [done|]. intros [Hne _]. congruence.
    + rewrite IH. split; [intros ?; split; [congruence|done]|tauto].
Qed.

Lemma range_index_first l1 u l2 k :
  ID u ∉ ID <$> l1 → range_index (l1 ++ u :: l2) (ID u) k = Some (k + length l1)%nat.
Proof.
  revert k. induction l1 as [|u0 l1 IH]; intros k; cbn.
  - intros _. rewrite bool_decide_eq_true_2 by done. f_equal. lia.
  - rewrite not_elem_of_cons. intros [Hne Hl1].
    rewrite bool_decide_eq_false_2 by congruence. rewrite IH by done. f_equal. lia.
Qed.

Lemma GetUser_range_first l1 u l2 :
  ID u ∉ ID <$> l1 → GetUser_range (l1 ++ u :: l2) (ID u) = (Some u, None).
Proof.
  induction l1 as [|u0 l1 IH]; cbn.
  - intros _. by rewrite bool_decide_eq_true_2.
  - rewrite not_elem_of_cons. intros [Hne Hl1].
    rewrite bool_decide_eq_false_2 by congruence. by apply IH.
Qed.

Lemma GetUser_range_absent l id :
  id ∉ ID <$> l → GetUser_range l id = (None, Some (errorString "User not found")).
Proof.
  induction l as [|u0 l IH]; cbn; [done|].
  rewrite not_elem_of_cons. intros [Hne Hl].
  rewrite bool_decide_eq_false_2 by congruence. by apply IH.
Qed.

(** A list either holds no user with the ID, or splits at the first one. *)
Lemma split_at_first_ID l id :
  id ∉ ID <$> l
  ∨ ∃ l1 u l2, l = l1 ++ u :: l2 ∧ ID u = id ∧ (id ∉ ID <$> l1).
Proof.
  destruct (range_index l id 0) as [i|] eqn:Hi.
  - right. apply range_index_Some in Hi as (l1 & u & l2 & ? & ? & ? & _). eauto 6.
  - left. by apply range_index_None in Hi.
Qed.

(** [GetUser].  The call returns a stored user carrying the ID, the first
    one in the list, when there is one, and the error "User not found"
    exactly when no stored user carries the ID. *)
Lemma GetUser_found_or_not_found (s : userService) (id : string) :
  (∃ l1 u l2, users s = l1 ++ u :: l2 ∧ ID u = id ∧ (id ∉ ID <$> l1)
              ∧ GetUser s id = (Some u, None))
  ∨ ((id ∉ ID <$> users s)
     ∧ GetUser s id = (None, Some (errorString "User not found"))).
Proof.
  unfold GetUser. destruct (split_at_first_ID (users s) id) as [Ha|(l1 & u & l2 & Hl & Hid & Hl1)].
  - right. split; [done|]. by apply GetUser_range_absent.
  - left. exists l1, u, l2. repeat split; try done.
    rewrite Hl. subst id. by apply GetUser_range_first.
Qed.

Lemma GetUser_range_app_other l u id :
  ID u ≠ id → GetUser_range (l ++ [u]) id = GetUser_range l id.
Proof.
  intros Hne. induction l as [|u0 l IH]; cbn.
  - by rewrite bool_decide_eq_false_2.
  - by rewrite IH.
Qed.

(** Replacing or removing the first user with an ID does not change what
    [GetUser] finds under any other ID. *)
Lemma GetUser_range_middle_other l1 u l2 mid id :
  ID u ≠ id → (∀ u', u' ∈ mid → ID u' ≠ id) →
  GetUser_range (l1 ++ mid ++ l2) id = GetUser_range (l1 ++ u :: l2) id.
Proof.
  intros Hne Hmid. induction l1 as [|u0 l1 IH]; cbn.
  - rewrite bool_decide_eq_false_2 by done.
    induction mid as [|m mid IHm]; cbn; [done|].
    rewrite bool_decide_eq_false_2 by (apply Hmid; left).
    apply IHm. intros u' Hu'. apply Hmid. by right.
  - by rewrite IH.
Qed.

(** X1: [CreateUser], then [GetUser].  With an ID no stored user carries,
    [CreateUser] returns the new user and no error, appends it to the list,
    [GetUser] under the new ID returns it, and [GetUser] under any other ID
    returns what it returned before. *)
Theorem CreateUser_then_GetUser (s : userService) (id : string)
    (createUserBody : CreateUserBody.t) :
  id ∉ ID <$> users s →
  (CreateUser s id createUserBody).2 = (Some (user_of_body id createUserBody), None)
  ∧ users (CreateUser s id createUserBody).1
    = users s ++ [user_of_body id createUserBody]
  ∧ GetUser (CreateUser s id createUserBody).1 id
    = (Some (user_of_body id createUserBody), None)
  ∧ ∀ id', id' ≠ id →
      GetUser (CreateUser s id createUserBody).1 id' = GetUser s id'.
Proof.
  intros Hfresh. unfold GetUser, CreateUser. cbn.
  fold (user_of_body id createUserBody). repeat split.
  - apply (GetUser_range_first (users s) (user_of_body id createUserBody) []). by cbn.
  - intros id' Hne. apply GetUser_range_app_other. cbn. congruence.
Qed.

Lemma CreateUser_then_GetUser_witness :
  ("u-9" ∉ ID <$> users NewUserService)
  ∧ (CreateUser NewUserService "u-9" bob_body).2 = (Some (user_of_body "u-9" bob_body), None)
  ∧ users (CreateUser NewUserService "u-9" bob_body).1
    = users NewUserService ++ [user_of_body "u-9" bob_body]
  ∧ GetUser (CreateUser NewUserService "u-9" bob_body).1 "u-9"
    = (Some (user_of_body "u-9" bob_body), None)
  ∧ ∀ id', id' ≠ "u-9" →
      GetUser (CreateUser NewUserService "u-9" bob_body).1 id' = GetUser NewUserService id'.
Proof.
  assert ("u-9" ∉ ID <$> users NewUserService) as Hfresh
    by (apply (bool_decide_unpack _); by vm_compute).
  split; [exact Hfresh|].
  exact (CreateUser_then_GetUser NewUserService "u-9" bob_body Hfresh).
Defined.

Lemma drop_past_middle {A} (l1 : list A) x l2 :
  drop (S (length l1)) (l1 ++ x :: l2) = l2.
Proof.
  rewrite cons_middle, app_assoc. apply drop_app_length'.
  rewrite length_app. cbn. lia.
Qed.

Lemma DeleteUser_cases (s : userService) (id : string) :
  (∃ l1 u l2, users s = l1 ++ u :: l2 ∧ ID u = id ∧ (id ∉ ID <$> l1)
              ∧ DeleteUser s id = (mkUserService (l1 ++ l2), None))
  ∨ ((id ∉ ID <$> users s)
     ∧ DeleteUser s id = (s, Some (errorString "User not found"))).
Proof.
  unfold DeleteUser.
  destruct (split_at_first_ID (users s) id) as [Ha|(l1 & u & l2 & Hl & Hid & Hl1)].
  - right. split; [done|]. by rewrite (proj2 (range_index_None _ _ 0) Ha).
  - left. exists l1, u, l2. repeat split; try done. subst id.
    rewrite Hl, range_index_first by done. cbn.
    by rewrite take_app_length, drop_past_middle.
Qed.

(** X2: [DeleteUser].  When no stored user carries the ID, the call returns
    "User not found" and the list is untouched.  Otherwise it returns no
    error and removes one user, the first that carries the ID; all others
    stay, in their order. *)
Theorem DeleteUser_removes_first (s : userService) (id : string) :
  (∃ l1 u l2, users s = l1 ++ u :: l2 ∧ ID u = id ∧ (id ∉ ID <$> l1)
              ∧ DeleteUser s id = (mkUserService (l1 ++ l2), None))
  ∨ ((id ∉ ID <$> users s)
     ∧ DeleteUser s id = (s, Some (errorString "User not found"))).
Proof. exact (DeleteUser_cases s id). Qed.

(** X3: [DeleteUser], then [GetUser].  When the stored IDs are pairwise
    distinct, [GetUser] under a deleted ID returns "User not found", and
    under any other ID what it returned before the deletion. *)
Theorem DeleteUser_then_GetUser (s : userService) (id : string) :
  NoDup (ID <$> users s) →
  GetUser (DeleteUser s id).1 id = (None, Some (errorString "User not found"))
  ∧ ∀ id', id' ≠ id → GetUser (DeleteUser s id).1 id' = GetUser s id'.
Proof.
  intros Hnd.
  destruct (DeleteUser_cases s id)
    as [(l1 & u & l2 & Hl & Hid & Hl1 & ->)|(Ha & ->)]; unfold GetUser; cbn.
  - rewrite Hl in *. rewrite fmap_app, fmap_cons, NoDup_app in Hnd.
    destruct Hnd as (_ & Hdisj & [Hu _]%NoDup_cons). split.
    + apply GetUser_range_absent. rewrite fmap_app, elem_of_app. subst id. tauto.
    + intros id' Hne.
      apply (GetUser_range_middle_other l1 u l2 [] id'); [congruence|].
      intros u' Hu'. by apply elem_of_nil in Hu'.
  - split; [by apply GetUser_range_absent|done].
Qed.

Lemma DeleteUser_then_GetUser_witness :
  NoDup (ID <$> users NewUserService)
  ∧ GetUser (DeleteUser NewUserService "embedded1").1 "embedded1"
    = (None, Some (errorString "User not found"))
  ∧ ∀ id', id' ≠ "embedded1" →
      GetUser (DeleteUser NewUserService "embedded1").1 id' = GetUser NewUserService id'.
Proof.
  assert (NoDup (ID <$> users NewUserService)) as Hnd
    by (apply (bool_decide_unpack _); by vm_compute).
  split; [exact Hnd|].
  exact (DeleteUser_then_GetUser NewUserService "embedded1" Hnd).
Defined.

Lemma insert_at_middle {A} (l1 : list A) x y l2 :
  <[length l1 := y]> (l1 ++ x :: l2) = l1 ++ y :: l2.
Proof.
  replace (length l1) with (length l1 + 0)%nat by lia. by rewrite insert_app_r.
Qed.

Lemma UpdateUser_cases (s : userService) (id : string)
    (updateUserBody : CreateUserBody.t) :
  ((∃ l1 u l2, users s = l1 ++ u :: l2 ∧ ID u = id ∧ (id ∉ ID <$> l1)
               ∧ UpdateUser s id updateUserBody
                 = (mkUserService (l1 ++ user_of_body id updateUserBody :: l2),
                    (Some (user_of_body id updateUserBody), None))
               ∧ GetUser (UpdateUser s id updateUserBody).1 id
                 = (Some (user_of_body id updateUserBody), None))
   ∨ ((id ∉ ID <$> users s)
      ∧ UpdateUser s id updateUserBody = (s, (None, Some (errorString "user not found")))))
  ∧ ∀ id', id' ≠ id → GetUser (UpdateUser s id updateUserBody).1 id' = GetUser s id'.
Proof.
  unfold UpdateUser.
  destruct (split_at_first_ID (users s) id) as [Ha|(l1 & u & l2 & Hl & Hid & Hl1)].
  - rewrite (proj2 (range_index_None _ _ 0) Ha). split; [by right|done].
  - subst id. rewrite Hl, range_index_first by done. cbn.
    rewrite list_lookup_middle by done. fold (user_of_body (ID u) updateUserBody).
    rewrite insert_at_middle.
    unfold GetUser. cbn. split.
    + left. exists l1, u, l2. repeat split; try done.
      by apply (GetUser_range_first l1 (user_of_body (ID u) updateUserBody) l2).
    + intros id' Hne. rewrite Hl.
      apply (GetUser_range_middle_other l1 u l2 [user_of_body (ID u) updateUserBody] id');
        [congruence|].
      intros u' ->%list_elem_of_singleton. cbn. congruence.
Qed.

(** X4: [UpdateUser].  When no stored user carries the ID, the call returns
    "user not found" and the list is untouched.  Otherwise it overwrites the
    six body fields of the first user that carries the ID, in place and
    keeping the ID, returns that user, and [GetUser] under the ID then
    returns it.  Either way [GetUser] under any other ID is unaffected. *)
Theorem UpdateUser_then_GetUser (s : userService) (id : string)
    (updateUserBody : CreateUserBody.t) :
  ((∃ l1 u l2, users s = l1 ++ u :: l2 ∧ ID u = id ∧ (id ∉ ID <$> l1)
               ∧ UpdateUser s id updateUserBody
                 = (mkUserService (l1 ++ user_of_body id updateUserBody :: l2),
                    (Some (user_of_body id updateUserBody), None))
               ∧ GetUser (UpdateUser s id updateUserBody).1 id
                 = (Some (user_of_body id updateUserBody), None))
   ∨ ((id ∉ ID <$> users s)
      ∧ UpdateUser s id updateUserBody = (s, (None, Some (errorString "user not found")))))
  ∧ ∀ id', id' ≠ id → GetUser (UpdateUser s id updateUserBody).1 id' = GetUser s id'.
Proof. exact (UpdateUser_cases s id updateUserBody). Qed.

Lemma user_call_NoDup s c s' :
  NoDup (ID <$> users s) → user_call s c = Some s' → NoDup (ID <$> users s').
Proof.
  intros Hnd. destruct c as [id body | id | id body]; cbn.
  - case_bool_decide as Hfresh; [|done]. intros [= <-]. cbn.
    rewrite fmap_app. apply NoDup_app. repeat split; [done| |apply NoDup_singleton].
    intros x Hx ->%list_elem_of_singleton. done.
  - intros [= <-].
    destruct (DeleteUser_cases s id)
      as [(l1 & u & l2 & Hl & _ & _ & ->)|(_ & ->)]; [|done]. cbn.
    rewrite Hl in Hnd. rewrite fmap_app in *. rewrite fmap_cons in Hnd.
    apply NoDup_app in Hnd as (H1 & H2 & [_ H3]%NoDup_cons).
    apply NoDup_app. repeat split; [done| |done].
    intros x Hx Hx2. apply (H2 x Hx). by right.
  - intros [= <-].
    destruct (UpdateUser_cases s id body)
      as [[(l1 & u & l2 & Hl & Hid & _ & -> & _)|(_ & ->)] _]; [|done]. cbn.
    rewrite Hl in Hnd. rewrite fmap_app, fmap_cons in *. cbn. by rewrite <- Hid.
Qed.

(** X5: the user IDs stay distinct.  Starting from a list whose IDs are
    pairwise distinct (the two embedded users of [NewUserService] are), any
    sequence of [CreateUser], [DeleteUser] and [UpdateUser] calls leaves a
    list whose IDs are pairwise distinct, as long as no [CreateUser] draws
    the ID of a user stored at that moment. *)
Theorem user_IDs_stay_distinct (cs : list UserCall) (s0 s : userService) :
  NoDup (ID <$> users s0) → user_calls cs s0 = Some s → NoDup (ID <$> users s).
Proof.
  revert s0. induction cs as [|c cs IH]; intros s0 Hnd; cbn.
  - by intros [= <-].
  - destruct (user_call s0 c) as [s1|] eqn:Hc; [|done].
    apply IH. by eapply user_call_NoDup.
Qed.

Lemma user_IDs_stay_distinct_witness :
  NoDup (ID <$> users NewUserService)
  ∧ user_calls [Do_CreateUser "u-9" bob_body; Do_DeleteUser "embedded2";
                Do_UpdateUser "embedded1" bob_body] NewUserService
    = Some (mkUserService [user_of_body "embedded1" bob_body; user_of_body "u-9" bob_body])
  ∧ NoDup (ID <$> [user_of_body "embedded1" bob_body; user_of_body "u-9" bob_body]).
Proof.
  assert (NoDup (ID <$> users NewUserService)) as Hnd
    by (apply (bool_decide_unpack _); by vm_compute).
  assert (user_calls [Do_CreateUser "u-9" bob_body; Do_DeleteUser "embedded2";
                      Do_UpdateUser "embedded1" bob_body] NewUserService
          = Some (mkUserService [user_of_body "embedded1" bob_body;
                                 user_of_body "u-9" bob_body])) as Hrun
    by (by vm_compute).
  split; [exact Hnd|]. split; [exact Hrun|].
  exact (user_IDs_stay_distinct _ _ _ Hnd Hrun).
Defined.

(** [ValidateCredentials].  The call succeeds exactly when some stored
    user has both the name and the password of the request, and then returns
    such a user (the first in the list); otherwise it returns "invalid
    credentials". *)
Lemma ValidateCredentials_matches (s : userService) (loginUser : LoginUserBody.t) :
  (∃ user, ValidateCredentials s loginUser = (Some user, None)
           ∧ user ∈ users s
           ∧ Name user = LoginUserBody.Name loginUser
           ∧ Password user = LoginUserBody.Password loginUser)
  ∨ (ValidateCredentials s loginUser = (None, Some (errorString "invalid credentials"))
     ∧ ∀ user, user ∈ users s →
         ¬ (Name user = LoginUserBody.Name loginUser
            ∧ Password user = LoginUserBody.Password loginUser)).
Proof.
  unfold ValidateCredentials. induction (users s) as [|u l IH]; cbn.
  - right. split; [done|]. intros user Hu. by apply elem_of_nil in Hu.
  - case_bool_decide as Hm.
    + left. exists u. split; [done|]. split; [left|done].
    + destruct IH as [(user & Hv & Hin & Hn)|(Hv & Hnone)].
      * left. exists user. split; [done|]. split; [by right|done].
      * right. split; [done|]. intros user [->|Hin]%elem_of_cons; [done|by apply Hnone].
Qed.

(** X6: [CreateUser], then [ValidateCredentials].  Logging in with the name
    and the password just registered always succeeds, with a user that has
    them; it is the new user when no user stored before had the same name
    and password (nothing keeps two users from sharing them). *)
Theorem CreateUser_then_ValidateCredentials (s : userService) (id : string)
    (createUserBody : CreateUserBody.t) :
  let loginUser := LoginUserBody.mk (CreateUserBody.Name createUserBody)
                     (CreateUserBody.Password createUserBody) in
  ∃ user,
    ValidateCredentials (CreateUser s id createUserBody).1 loginUser = (Some user, None)
    ∧ Name user = CreateUserBody.Name createUserBody
    ∧ Password user = CreateUserBody.Password createUserBody
    ∧ ((∀ old, old ∈ users s →
          ¬ (Name old = CreateUserBody.Name createUserBody
             ∧ Password old = CreateUserBody.Password createUserBody)) →
       user = user_of_body id createUserBody).
Proof.
  cbn zeta. unfold ValidateCredentials, CreateUser. cbn.
  fold (user_of_body id createUserBody).
  induction (users s) as [|u l IH]; cbn.
  - rewrite bool_decide_eq_true_2 by done. eexists. repeat split; done.
  - case_bool_decide as Hm.
    + exists u. split; [done|]. split; [tauto|]. split; [tauto|].
      intros Hnone. destruct (Hnone u); [left|done].
    + destruct IH as (user & Hv & Hn & Hp & Hnew). exists user.
      repeat split; try done. intros Hnone. apply Hnew.
      intros old Hold. apply Hnone. by right.
Qed.

(** X7: [DeleteUser], then [ValidateCredentials].  When the stored IDs are
    pairwise distinct and every stored user with the given name and password
    carries the ID, deleting that ID makes the login with this name and
    password fail with "invalid credentials". *)
Theorem DeleteUser_then_ValidateCredentials (s : userService) (id : string)
    (loginUser : LoginUserBody.t) :
  NoDup (ID <$> users s) →
  (∀ user, user ∈ users s →
     Name user = LoginUserBody.Name loginUser
     ∧ Password user = LoginUserBody.Password loginUser → ID user = id) →
  ValidateCredentials (DeleteUser s id).1 loginUser
  = (None, Some (errorString "invalid credentials")).
Proof.
  intros Hnd Honly.
  destruct (ValidateCredentials_matches (DeleteUser s id).1 loginUser)
    as [(user & _ & Hin & Hn & Hp)|[Hv _]]; [|done].
  exfalso.
  destruct (DeleteUser_cases s id)
    as [(l1 & u & l2 & Hl & Hid & Hl1 & Hd)|(Ha & Hd)]; rewrite Hd in Hin; cbn in Hin.
  - rewrite Hl in *. rewrite fmap_app, fmap_cons in Hnd.
    apply NoDup_app in Hnd as (_ & Hdisj & [Hu _]%NoDup_cons).
    assert (ID user = id) as Huid.
    { apply Honly; [|done]. rewrite elem_of_app, elem_of_cons.
      apply elem_of_app in Hin. tauto. }
    apply elem_of_app in Hin as [Hin|Hin].
    + apply Hl1. rewrite <- Huid. by apply list_elem_of_fmap_2.
    + apply Hu. rewrite Hid, <- Huid. by apply list_elem_of_fmap_2.
  - apply Ha. rewrite <- (Honly user Hin (conj Hn Hp)). by apply list_elem_of_fmap_2.
Qed.

Lemma DeleteUser_then_ValidateCredentials_witness :
  NoDup (ID <$> users NewUserService)
  ∧ (∀ user, user ∈ users NewUserService →
       Name user = LoginUserBody.Name john_login
       ∧ Password user = LoginUserBody.Password john_login → ID user = "embedded1")
  ∧ ValidateCredentials (DeleteUser NewUserService "embedded1").1 john_login
    = (None, Some (errorString "invalid credentials")).
Proof.
  assert (NoDup (ID <$> users NewUserService)) as Hnd
    by (apply (bool_decide_unpack _); by vm_compute).
  assert (∀ user, user ∈ users NewUserService →
            Name user = LoginUserBody.Name john_login
            ∧ Password user = LoginUserBody.Password john_login → ID user = "embedded1")
    as Honly.
  { intros user Hin [Hn _]. cbn in Hin.
    apply elem_of_cons in Hin as [->|Hin]; [done|].
    apply list_elem_of_singleton in Hin as ->. by cbn in Hn. }
  split; [exact Hnd|]. split; [exact Honly|].
  exact (DeleteUser_then_ValidateCredentials NewUserService "embedded1" john_login Hnd Honly).
Defined.

(** ** Token service, continued *)

Lemma authentic_same_secret t t' now tokenString :
  secret t = secret t' → authentic t now tokenString → authentic t' now tokenString.
Proof. rewrite !authentic_iff. by intros ->. Qed.

Lemma Parse_same_secret t t' now tokenString :
  secret t = secret t' →
  jwt.Parse now tokenString (keyFunc t) = jwt.Parse now tokenString (keyFunc t').
Proof.
  intros Hs. unfold jwt.Parse. destruct (jwt.ParseUnverified tokenString) as [[token|] [err|]];
    try done.
  unfold keyFunc. by rewrite Hs.
Qed.

(** [ValidateToken] reads the rejected list only to ask whether the token's
    identifier is on it. *)
Lemma ValidateToken_same_membership t t' now tokenString jti :
  secret t = secret t' →
  claims_of tokenString !! "jti" = Some (VString jti) →
  (jti ∈ rejectedTokens t ↔ jti ∈ rejectedTokens t') →
  ValidateToken t now tokenString = ValidateToken t' now tokenString.
Proof.
  intros Hs Hjti Hmem. unfold ValidateToken. rewrite <- (Parse_same_secret t t') by done.
  destruct (jwt.Parse now tokenString (keyFunc t)) as [tok [err|]] eqn:Hp; [done|].
  apply Parse_success_inv in Hp as (alg & h & claims & -> & _ & _ & ->). cbn in *.
  rewrite !(on_rejected_list_string _ _ jti Hjti). by rewrite (bool_decide_ext _ _ Hmem).
Qed.

Lemma ValidateToken_Revoked_iff t now tokenString :
  ValidateToken t now tokenString = Return (None, Some Revoked) ↔
  authentic t now tokenString
  ∧ ∃ jti, claims_of tokenString !! "jti" = Some (VString jti) ∧ jti ∈ rejectedTokens t.
Proof.
  split.
  - unfold ValidateToken.
    destruct (jwt.Parse now tokenString (keyFunc t)) as [tok [err|]] eqn:Hp.
    { destruct tok; intros [= ->]; by apply Parse_error_not_Revoked in Hp. }
    pose proof Hp as Hp'.
    apply Parse_success_inv in Hp' as (alg & h & claims & -> & _ & _ & ->). cbn.
    destruct (on_rejected_list (rejectedTokens t) claims) as [[|]|v] eqn:Hl; cbn.
    + intros _. split; [by eexists|]. by apply on_rejected_list_true.
    + destruct (assert_string (claims !! "user_id")); cbn; [|done].
      by destruct (assert_string (claims !! "name")).
    + done.
  - intros ([token Hp] & jti & Hjti & Hin). unfold ValidateToken. rewrite Hp.
    apply Parse_success_inv in Hp as (alg & h & claims & -> & _ & _ & [= ->]). cbn in *.
    rewrite (on_rejected_list_string _ _ jti Hjti). cbn.
    by rewrite bool_decide_eq_true_2.
Qed.

Lemma RejectToken_effect (t : tokenService) (now : Z)
    (tokenString : jwt.TokenString) :
  secret (RejectToken t now tokenString).1 = secret t
  ∧ (rejectedTokens (RejectToken t now tokenString).1 = rejectedTokens t
     ∨ ∃ jti, authentic t now tokenString
              ∧ claims_of tokenString !! "jti" = Some (VString jti)
              ∧ (RejectToken t now tokenString).2 = Return None
              ∧ rejectedTokens (RejectToken t now tokenString).1
                = rejectedTokens t ++ [jti]).
Proof.
  destruct (RejectToken t now tokenString) as [t' r] eqn:Hr.
  destruct r as [[err|]|v].
  - unfold RejectToken in Hr.
    destruct (jwt.Parse now tokenString (keyFunc t)) as [tok [e|]] eqn:Hp.
    + destruct tok; injection Hr as <- _; by split; [|left].
    + apply Parse_success_inv in Hp as (alg & h & claims & -> & _ & _ & ->). cbn in Hr.
      by destruct (claims !! "jti") as [[]|].
  - apply RejectToken_returns_nil in Hr as (jti & Ha & Hjti & ->). cbn.
    split; [done|]. right. by exists jti.
  - unfold RejectToken in Hr.
    destruct (jwt.Parse now tokenString (keyFunc t)) as [tok [e|]] eqn:Hp.
    + by destruct tok.
    + pose proof Hp as Hp'.
      apply Parse_success_inv in Hp' as (alg & h & claims & -> & _ & _ & ->). cbn in Hr.
      destruct (claims !! "jti") as [[]|]; cbn in Hr; try done;
        injection Hr as <- _; by split; [|left].
Qed.

(** X11: what [RejectToken] can do to the service.  Whatever the token and the
    time, the secret stays, and the rejected list either stays as it is or
    gets one identifier appended; it is appended only when the call returns
    [nil], and it is then the ["jti"] of a token [jwt.Parse] accepted.
    Nothing is ever removed or reordered. *)
Theorem RejectToken_appends_at_most_one (t : tokenService) (now : Z)
    (tokenString : jwt.TokenString) :
  secret (RejectToken t now tokenString).1 = secret t
  ∧ (rejectedTokens (RejectToken t now tokenString).1 = rejectedTokens t
     ∨ ∃ jti, authentic t now tokenString
              ∧ claims_of tokenString !! "jti" = Some (VString jti)
              ∧ (RejectToken t now tokenString).2 = Return None
              ∧ rejectedTokens (RejectToken t now tokenString).1
                = rejectedTokens t ++ [jti]).
Proof. exact (RejectToken_effect t now tokenString). Qed.

Lemma RejectTokens_cons now tokenString calls t :
  RejectTokens ((now, tokenString) :: calls) t
  = RejectTokens calls (RejectToken t now tokenString).1.
Proof. reflexivity. Qed.

Lemma RejectTokens_grows calls : ∀ t,
  secret (RejectTokens calls t) = secret t
  ∧ ∀ jti, jti ∈ rejectedTokens t → jti ∈ rejectedTokens (RejectTokens calls t).
Proof.
  induction calls as [|[now ts] calls IH]; intros t; [done|].
  rewrite RejectTokens_cons.
  destruct (IH (RejectToken t now ts).1) as [Hs Hin].
  destruct (RejectToken_effect t now ts) as [Hs1 Hl].
  split; [by rewrite Hs|]. intros jti Hjti. apply Hin.
  destruct Hl as [->|(j & _ & _ & _ & ->)]; [done|]. rewrite elem_of_app. by left.
Qed.

(** X12: revocation is permanent.  Once [RejectToken] has returned [nil] for a
    token, then after any further [RejectToken] calls, for whatever tokens,
    [ValidateToken] classifies the token as rejected at every later time at
    which it has not expired. *)
Theorem revocation_is_permanent (t t' : tokenService) (now1 now2 : Z)
    (tokenString : jwt.TokenString) (calls : list (Z * jwt.TokenString)) :
  RejectToken t now1 tokenString = (t', Return None) →
  (now1 ≤ now2)%Z → expired now2 tokenString = false →
  ValidateToken (RejectTokens calls t') now2 tokenString = Return (None, Some Revoked).
Proof.
  intros Hr Hle Hexp.
  pose proof (ValidateToken_after_RejectToken _ _ _ _ _ Hr Hle Hexp) as Hv.
  apply ValidateToken_Revoked_iff in Hv as (Ha & jti & Hjti & Hin).
  destruct (RejectTokens_grows calls t') as [Hs Hgrow].
  apply ValidateToken_Revoked_iff. split.
  - by apply (authentic_same_secret t').
  - exists jti. split; [done|]. by apply Hgrow.
Qed.

Lemma revocation_is_permanent_witness :
  RejectToken main_tokenService 1001 alice_token
  = (mkTokenService "secret" ["j1"], Return None)
  ∧ (1001 ≤ 1500)%Z ∧ expired 1500 alice_token = false
  ∧ ValidateToken
      (RejectTokens [(1002, alice_second_token); (1003, token_without_jti)]
         (mkTokenService "secret" ["j1"])) 1500 alice_token
    = Return (None, Some Revoked).
Proof.
  assert (RejectToken main_tokenService 1001 alice_token
          = (mkTokenService "secret" ["j1"], Return None)) as Hr by (by vm_compute).
  assert (1001 ≤ 1500)%Z as Hle by lia.
  assert (expired 1500 alice_token = false) as Hexp by (by vm_compute).
  split; [exact Hr|]. split; [exact Hle|]. split; [exact Hexp|].
  exact (revocation_is_permanent _ _ _ _ _
           [(1002, alice_second_token); (1003, token_without_jti)] Hr Hle Hexp).
Defined.

(** X13: revocation is per token.  A [RejectToken] call for one token does not
    change what [ValidateToken] returns for a token that carries a different
    string ["jti"], at any time and whatever that token's state. *)
Theorem RejectToken_spares_other_tokens (t : tokenService) (now1 now2 : Z)
    (revoked other : jwt.TokenString) (jti : string) :
  claims_of other !! "jti" = Some (VString jti) →
  claims_of revoked !! "jti" ≠ Some (VString jti) →
  ValidateToken (RejectToken t now1 revoked).1 now2 other = ValidateToken t now2 other.
Proof.
  intros Hjti Hne.
  destruct (RejectToken_effect t now1 revoked) as [Hs Hl].
  apply (ValidateToken_same_membership _ _ _ _ jti); [done|done|].
  destruct Hl as [->|(j & _ & Hj & _ & ->)]; [done|].
  rewrite elem_of_app, list_elem_of_singleton. split; [|by left].
  intros [?| ->]; [done|]. by destruct Hne.
Qed.

Lemma RejectToken_spares_other_tokens_witness :
  claims_of alice_second_token !! "jti" = Some (VString "j2")
  ∧ claims_of alice_token !! "jti" ≠ Some (VString "j2")
  ∧ ValidateToken (RejectToken main_tokenService 1001 alice_token).1 1002 alice_second_token
    = ValidateToken main_tokenService 1002 alice_second_token.
Proof.
  assert (claims_of alice_second_token !! "jti" = Some (VString "j2")) as H1
    by (by vm_compute).
  assert (claims_of alice_token !! "jti" ≠ Some (VString "j2")) as H2
    by (by vm_compute).
  split; [exact H1|]. split; [exact H2|].
  exact (RejectToken_spares_other_tokens main_tokenService 1001 1002 _ _ "j2" H1 H2).
Defined.

(** X8: issue, then verify.  For every user, the token [GenerateToken] makes
    is accepted by [ValidateToken] at any time before the ten minutes are
    over, as long as its identifier is not on the rejected list, and the user
    returned carries the ID and the name of the user the token was issued
    for; every other field of it is empty. *)
Theorem issued_token_verifies (t : tokenService) (now : Z) (jti : string) (user : User)
    (now' : Z) :
  (now' < now + 600)%Z → jti ∉ rejectedTokens t →
  ∃ tokenString,
    GenerateToken t now jti user = (Some tokenString, None)
    ∧ ValidateToken t now' tokenString
      = Return (Some (mkUser (ID user) (Name user) "" "" "" "" 0), None).
Proof. exact (ValidateToken_GenerateToken t now jti user now'). Qed.

Lemma issued_token_verifies_witness :
  (1599 < 1000 + 600)%Z ∧ ("j1" ∉ rejectedTokens main_tokenService)
  ∧ ∃ tokenString,
      GenerateToken main_tokenService 1000 "j1" alice = (Some tokenString, None)
      ∧ ValidateToken main_tokenService 1599 tokenString
        = Return (Some (mkUser (ID alice) (Name alice) "" "" "" "" 0), None).
Proof.
  assert (1599 < 1000 + 600)%Z as Hnow by lia.
  assert ("j1" ∉ rejectedTokens main_tokenService) as Hjti by apply not_elem_of_nil.
  split; [exact Hnow|]. split; [exact Hjti|].
  exact (issued_token_verifies main_tokenService 1000 "j1" alice 1599 Hnow Hjti).
Defined.

(** X10: [RejectToken] twice.  For a token that [jwt.Parse] accepts at both
    times and that carries a string ["jti"], two calls both return [nil]; the
    second appends the identifier again, so the list holds it twice, with the
    same members as after one call. *)
Theorem RejectToken_twice_appends_twice (t : tokenService) (now1 now2 : Z)
    (tokenString : jwt.TokenString) (jti : string) :
  authentic t now1 tokenString → authentic t now2 tokenString →
  claims_of tokenString !! "jti" = Some (VString jti) →
  let once := RejectToken t now1 tokenString in
  let twice := RejectToken once.1 now2 tokenString in
  once.2 = Return None ∧ twice.2 = Return None
  ∧ rejectedTokens twice.1 = rejectedTokens t ++ [jti; jti]
  ∧ ∀ x, x ∈ rejectedTokens twice.1 ↔ x ∈ rejectedTokens once.1.
Proof.
  intros Ha1 Ha2 Hjti.
  destruct (RejectToken_twice t now1 now2 tokenString jti Ha1 Ha2 Hjti)
    as (H1 & H2 & H3 & H4).
  cbn zeta. repeat split; try done; try apply H4.
  rewrite H3. rewrite (RejectToken_authentic t now1 _ jti Ha1 Hjti). cbn.
  by rewrite <- app_assoc.
Qed.

Lemma RejectToken_twice_appends_twice_witness :
  authentic main_tokenService 1001 alice_token
  ∧ authentic main_tokenService 1002 alice_token
  ∧ claims_of alice_token !! "jti" = Some (VString "j1")
  ∧ let once := RejectToken main_tokenService 1001 alice_token in
    let twice := RejectToken once.1 1002 alice_token in
    once.2 = Return None ∧ twice.2 = Return None
    ∧ rejectedTokens twice.1 = rejectedTokens main_tokenService ++ ["j1"; "j1"]
    ∧ ∀ x, x ∈ rejectedTokens twice.1 ↔ x ∈ rejectedTokens once.1.
Proof.
  assert (authentic main_tokenService 1001 alice_token) as H1
    by (apply authentic_iff; by vm_compute).
  assert (authentic main_tokenService 1002 alice_token) as H2
    by (apply authentic_iff; by vm_compute).
  assert (claims_of alice_token !! "jti" = Some (VString "j1")) as H3 by (by vm_compute).
  split; [exact H1|]. split; [exact H2|]. split; [exact H3|].
  exact (RejectToken_twice_appends_twice main_tokenService 1001 1002 alice_token "j1"
           H1 H2 H3).
Defined.

(** The token [GenerateToken] makes, spelled out. *)
Lemma GenerateToken_eq t now jti user :
  GenerateToken t now jti user
  = (Some (hs256_token (secret t)
             (<["jti" := VString jti]> (<["exp" := VNumber (now + 10 * 60)]>
               (<["name" := VString (Name user)]> (<["role" := VString (Role user)]>
                 (<["user_id" := VString (ID user)]> ∅)))))), None).
Proof. reflexivity. Qed.

(** X9: the validity window.  From ten minutes after its issuance on, the
    token [GenerateToken] made is refused: [ValidateToken] returns the
    validation error flagged expired, whether or not the token's identifier is
    on the rejected list, and [RejectToken] returns the same error and adds
    nothing.  (The one exception is an issuance 600 seconds before the epoch:
    an ["exp"] of 0 counts as no expiry.) *)
Theorem GenerateToken_expires (t : tokenService) (now : Z) (jti : string) (user : User)
    (now' : Z) :
  (now + 600 ≤ now')%Z → (now + 600 ≠ 0)%Z →
  ∃ tokenString inner,
    GenerateToken t now jti user = (Some tokenString, None)
    ∧ ValidateToken t now' tokenString
      = Return (None, Some (ValidationError inner jwt.ValidationErrorExpired))
    ∧ RejectToken t now' tokenString
      = (t, Return (Some (ValidationError inner jwt.ValidationErrorExpired))).
Proof.
  intros Hlate Hnz. rewrite GenerateToken_eq. eexists _, _. split; [reflexivity|].
  set (claims := <["jti" := VString jti]> _).
  assert (jwt.Parse now' (hs256_token (secret t) claims) (keyFunc t)
          = (Some (jwt.mkToken jwt.SigningMethodHS256 (Some "HS256") claims
                     (Some (jwt.MAC jwt.SigningMethodHS256 (secret t) (Some "HS256") claims))
                     false),
             Some (ValidationError "Token is expired" jwt.ValidationErrorExpired))) as Hp.
  { unfold jwt.Parse, hs256_token, jwt.ParseUnverified.
    change (jwt.GetSigningMethod "HS256") with (Some jwt.SigningMethodHS256). cbn.
    rewrite bool_decide_eq_true_2 by done. cbn.
    unfold jwt.MapClaims_Valid, jwt.VerifyExpiresAt, jwt.VerifyIssuedAt, jwt.VerifyNotBefore.
    subst claims. simplify_map_eq.
    rewrite bool_decide_eq_false_2 by lia. rewrite bool_decide_eq_false_2 by lia.
    reflexivity. }
  unfold ValidateToken, RejectToken. by rewrite Hp.
Qed.

Lemma GenerateToken_expires_witness :
  (1000 + 600 ≤ 1600)%Z ∧ (1000 + 600 ≠ 0)%Z
  ∧ ∃ tokenString inner,
      GenerateToken (mkTokenService "secret" ["j1"]) 1000 "j1" alice = (Some tokenString, None)
      ∧ ValidateToken (mkTokenService "secret" ["j1"]) 1600 tokenString
        = Return (None, Some (ValidationError inner jwt.ValidationErrorExpired))
      ∧ RejectToken (mkTokenService "secret" ["j1"]) 1600 tokenString
        = (mkTokenService "secret" ["j1"],
           Return (Some (ValidationError inner jwt.ValidationErrorExpired))).
Proof.
  assert (1000 + 600 ≤ 1600)%Z as H1 by lia.
  assert (1000 + 600 ≠ 0)%Z as H2 by lia.
  split; [exact H1|]. split; [exact H2|].
  exact (GenerateToken_expires (mkTokenService "secret" ["j1"]) 1000 "j1" alice 1600 H1 H2).
Defined.

(** X14: algorithm substitution.  A token whose header declares a registered
    method that is not an HMAC (none, RS256, ES256, ...) is refused by the key
    function, whatever its claims and third segment: [ValidateToken] returns
    the unverifiable error "unexpected signing method: <alg>", and
    [RejectToken] returns it too and adds nothing. *)
Theorem non_HMAC_token_refused (t : tokenService) (now : Z) (alg : string)
    (m : jwt.SigningMethod) (claims : jwt.MapClaims) (sig : jwt.Signature) :
  jwt.GetSigningMethod alg = Some m → (∀ h, m ≠ jwt.SigningMethodHMAC h) →
  let err := ValidationError ("unexpected signing method: " +:+ alg)
               jwt.ValidationErrorUnverifiable in
  ValidateToken t now (jwt.Compact (Some alg) claims sig) = Return (None, Some err)
  ∧ RejectToken t now (jwt.Compact (Some alg) claims sig) = (t, Return (Some err)).
Proof.
  intros Hm Hnot. cbn zeta. unfold ValidateToken, RejectToken, jwt.Parse, jwt.ParseUnverified.
  rewrite Hm. destruct m as [h| | | | |]; [by destruct (Hnot h)|done..].
Qed.

Lemma non_HMAC_token_refused_witness :
  jwt.GetSigningMethod "none" = Some jwt.signingMethodNone
  ∧ (∀ h, jwt.signingMethodNone ≠ jwt.SigningMethodHMAC h)
  ∧ let err := ValidationError ("unexpected signing method: " +:+ "none")
                 jwt.ValidationErrorUnverifiable in
    ValidateToken main_tokenService 1001 alice_token_alg_none = Return (None, Some err)
    ∧ RejectToken main_tokenService 1001 alice_token_alg_none
      = (main_tokenService, Return (Some err)).
Proof.
  assert (jwt.GetSigningMethod "none" = Some jwt.signingMethodNone) as H1 by reflexivity.
  assert (∀ h, jwt.signingMethodNone ≠ jwt.SigningMethodHMAC h) as H2 by done.
  split; [exact H1|]. split; [exact H2|].
  exact (non_HMAC_token_refused main_tokenService 1001 "none" jwt.signingMethodNone
           (claims_of alice_token) (jwt.SigBytes "") H1 H2).
Defined.

(** X15: every HMAC method is accepted.  The service signs with HS256, but its
    key function lets any HMAC method through: a token signed with the secret
    under HS384 or HS512 whose claims are valid is verified like one of its
    own. *)
Theorem any_HMAC_token_accepted (t : tokenService) (now : Z) (h : jwt.Hash)
    (claims : jwt.MapClaims) (jti user_id name : string) :
  jwt.MapClaims_Valid now claims = None →
  claims !! "jti" = Some (VString jti) → jti ∉ rejectedTokens t →
  claims !! "user_id" = Some (VString user_id) →
  claims !! "name" = Some (VString name) →
  ValidateToken t now (hmac_token h (secret t) claims)
  = Return (Some (mkUser user_id name "" "" "" "" 0), None).
Proof.
  intros Hv Hjti Hnot Hid Hname.
  rewrite (ValidateToken_authentic t now _ jti user_id name); try done.
  - by rewrite bool_decide_eq_false_2.
  - eexists. apply Parse_success; [apply GetSigningMethod_Alg|done].
Qed.

Lemma any_HMAC_token_accepted_witness :
  jwt.MapClaims_Valid 1001 (claims_of alice_token) = None
  ∧ claims_of alice_token !! "jti" = Some (VString "j1")
  ∧ ("j1" ∉ rejectedTokens main_tokenService)
  ∧ claims_of alice_token !! "user_id" = Some (VString "u1")
  ∧ claims_of alice_token !! "name" = Some (VString "alice")
  ∧ ValidateToken main_tokenService 1001
      (hmac_token jwt.SHA512 (secret main_tokenService) (claims_of alice_token))
    = Return (Some (mkUser "u1" "alice" "" "" "" "" 0), None).
Proof.
  assert (jwt.MapClaims_Valid 1001 (claims_of alice_token) = None) as H1 by (by vm_compute).
  assert (claims_of alice_token !! "jti" = Some (VString "j1")) as H2 by (by vm_compute).
  assert ("j1" ∉ rejectedTokens main_tokenService) as H3 by apply not_elem_of_nil.
  assert (claims_of alice_token !! "user_id" = Some (VString "u1")) as H4 by (by vm_compute).
  assert (claims_of alice_token !! "name" = Some (VString "alice")) as H5 by (by vm_compute).
  split; [exact H1|]. split; [exact H2|]. split; [exact H3|]. split; [exact H4|].
  split; [exact H5|].
  exact (any_HMAC_token_accepted main_tokenService 1001 jwt.SHA512 _ "j1" "u1" "alice"
           H1 H2 H3 H4 H5).
Defined.



(** ** Provisioning pipeline, continued *)

(** X17: [ListVMs].  On a service that holds no VM the call returns the empty
    list and no error.  Once [simulateVMCreation] has stored a VM it panics:
    the map holds [*VM] values and the callback asserts [VM]. *)
Theorem ListVMs_panics_once_a_VM_is_stored (s : vmService) :
  ListVMs s = (if decide (vms s = ∅) then Return ([], None)
               else Panic "interface conversion: interface {} is not main.VM")
  ∧ ∀ vmID deploymentID createVMBody,
      ListVMs (simulateVMCreation s vmID deploymentID createVMBody)
      = Panic "interface conversion: interface {} is not main.VM".
Proof.
  assert (∀ s', ListVMs s' = (if decide (vms s' = ∅) then Return ([], None)
                 else Panic "interface conversion: interface {} is not main.VM")) as Hgen.
  { intros s'. unfold ListVMs, vms_entries. case_decide as He.
    - by rewrite He, map_to_list_empty.
    - destruct (map_to_list (vms s')) as [|[k vm] l] eqn:Hl; [|done].
      by apply map_to_list_empty_iff in Hl. }
  split; [apply Hgen|]. intros vmID deploymentID createVMBody. rewrite Hgen.
  rewrite decide_False; [done|]. cbn. apply insert_non_empty.
Qed.

(** X18: the resource identifier is never recorded.  In every state the
    pipeline reaches, whatever has been created, fabricated and received,
    every stored deployment has an empty [ResourceID], the created ones
    included. *)
Theorem ResourceID_is_never_recorded (sys : System) (id : string) (d : VMDeployment.t) :
  reachable sys → deployments (service sys) !! id = Some d →
  VMDeployment.ResourceID d = "".
Proof. exact (reachable_ResourceID_empty sys id d). Qed.

Lemma ResourceID_is_never_recorded_witness :
  reachable web1_reconciled
  ∧ deployments (service web1_reconciled) !! "d1" = Some (web1_deployment "created")
  ∧ VMDeployment.ResourceID (web1_deployment "created") = "".
Proof.
  assert (reachable web1_reconciled) as Hr by (exists web1_trace; by vm_compute).
  assert (deployments (service web1_reconciled) !! "d1" = Some (web1_deployment "created"))
    as Hd by (by vm_compute).
  split; [exact Hr|]. split; [exact Hd|].
  exact (ResourceID_is_never_recorded web1_reconciled "d1" _ Hr Hd).
Defined.

Lemma UpdateDeploymentStatus_iter_vms s update :
  vms (UpdateDeploymentStatus_iter s update) = vms s.
Proof.
  unfold UpdateDeploymentStatus_iter.
  by destruct (deployments s !! DeploymentUpdate.DeploymentID update).
Qed.

Lemma UpdateDeploymentStatus_iter_is_Some s update id :
  is_Some (deployments (UpdateDeploymentStatus_iter s update) !! id)
  ↔ is_Some (deployments s !! id).
Proof.
  rewrite UpdateDeploymentStatus_iter_lookup. case_decide; [|done].
  by rewrite fmap_is_Some.
Qed.

(** The whole loop, read through the map. *)
Lemma UpdateDeploymentStatus_lookup received : ∀ s id,
  deployments (UpdateDeploymentStatus s received) !! id
  = if decide (id ∈ DeploymentUpdate.DeploymentID <$> received)
    then set_created <$> deployments s !! id
    else deployments s !! id.
Proof.
  unfold UpdateDeploymentStatus.
  induction received as [|u l IH]; intros s id; cbn.
  - rewrite decide_False; [done|]. apply not_elem_of_nil.
  - rewrite IH, UpdateDeploymentStatus_iter_lookup.
    fold (set_created). destruct (decide (id = DeploymentUpdate.DeploymentID u)) as [->|Hne].
    + rewrite (decide_True (P := _ ∈ _ :: _)) by left.
      case_decide; [|done]. by destruct (deployments s !! _).
    + case_decide as Hin.
      * rewrite decide_True; [done|by right].
      * rewrite decide_False; [done|]. by intros [?|?]%elem_of_cons.
Qed.

Lemma UpdateDeploymentStatus_rest received : ∀ s,
  tasks (UpdateDeploymentStatus s received) = tasks s
  ∧ vms (UpdateDeploymentStatus s received) = vms s
  ∧ updateChannel (UpdateDeploymentStatus s received) = updateChannel s.
Proof.
  unfold UpdateDeploymentStatus. induction received as [|u l IH]; intros s; cbn; [done|].
  destruct (IH (UpdateDeploymentStatus_iter s u)) as (-> & -> & ->).
  by rewrite UpdateDeploymentStatus_iter_tasks, UpdateDeploymentStatus_iter_vms,
    UpdateDeploymentStatus_iter_updateChannel.
Qed.

(** X19: the loop is insensitive to order and repetition.  Two sequences of
    updates that name the same deployments leave the same deployment map,
    whatever their order, their resource identifiers and the number of times
    a deployment is named; the map keeps exactly its keys, the named
    deployments are created, the others are as before; tasks and VMs are not
    touched. *)
Theorem UpdateDeploymentStatus_order_insensitive (s : vmService)
    (received received' : list DeploymentUpdate.t) :
  (∀ id, id ∈ DeploymentUpdate.DeploymentID <$> received
         ↔ id ∈ DeploymentUpdate.DeploymentID <$> received') →
  deployments (UpdateDeploymentStatus s received)
  = deployments (UpdateDeploymentStatus s received')
  ∧ dom (deployments (UpdateDeploymentStatus s received)) = dom (deployments s)
  ∧ (∀ id, id ∉ DeploymentUpdate.DeploymentID <$> received →
           deployments (UpdateDeploymentStatus s received) !! id = deployments s !! id)
  ∧ (∀ id d, id ∈ DeploymentUpdate.DeploymentID <$> received →
             deployments (UpdateDeploymentStatus s received) !! id = Some d →
             VMDeployment.Status d = "created")
  ∧ tasks (UpdateDeploymentStatus s received) = tasks s
  ∧ vms (UpdateDeploymentStatus s received) = vms s.
Proof.
  intros Hsame. split; [|split; [|split; [|split]]].
  - apply map_eq. intros id. rewrite !UpdateDeploymentStatus_lookup.
    by rewrite (decide_ext _ _ _ _ (Hsame id)).
  - apply set_eq. intros id. rewrite !elem_of_dom, UpdateDeploymentStatus_lookup.
    case_decide; [|done]. by rewrite fmap_is_Some.
  - intros id Hid. rewrite UpdateDeploymentStatus_lookup. by rewrite decide_False.
  - intros id d Hid. rewrite UpdateDeploymentStatus_lookup. rewrite decide_True by done.
    destruct (deployments s !! id); [|done]. by intros [= <-].
  - by destruct (UpdateDeploymentStatus_rest received s) as (? & ? & _).
Qed.

Lemma UpdateDeploymentStatus_order_insensitive_witness :
  (∀ id, id ∈ DeploymentUpdate.DeploymentID <$> [web1_update]
         ↔ id ∈ DeploymentUpdate.DeploymentID
               <$> [DeploymentUpdate.mk "d1" "v7"; web1_update])
  ∧ deployments (UpdateDeploymentStatus web1_in_progress [web1_update])
    = deployments (UpdateDeploymentStatus web1_in_progress
                     [DeploymentUpdate.mk "d1" "v7"; web1_update]).
Proof.
  assert (∀ id, id ∈ DeploymentUpdate.DeploymentID <$> [web1_update]
            ↔ id ∈ DeploymentUpdate.DeploymentID
                  <$> [DeploymentUpdate.mk "d1" "v7"; web1_update]) as Hsame.
  { intros id. cbn. rewrite !elem_of_cons. tauto. }
  split; [exact Hsame|].
  exact (proj1 (UpdateDeploymentStatus_order_insensitive web1_in_progress _ _ Hsame)).
Defined.

Lemma Linked_initial : Linked initial.
Proof.
  unfold Linked, pending; cbn. split; [|split; [|split; [|split; [|split]]]].
  - intros id. rewrite lookup_empty. split; [by intros ?%elem_of_nil|by intros [? ?]].
  - constructor.
  - constructor.
  - by intros id ?%elem_of_nil.
  - intros k vm. by rewrite lookup_empty.
  - by intros u ?%elem_of_nil.
Qed.

Lemma step_Linked sys e sys' :
  Inv sys → Linked sys → step sys e = Some sys' → Linked sys'.
Proof.
  intros (Hdep & Hnd & Hpend & Hproc & Htask) (Hlink & Hnt & Hndd & Hpd & Hvms & Hupd).
  destruct e as [createVMBody taskID deploymentID | i vmID | i]; cbn.
  - case_bool_decide as Hfresh; [|done]. destruct Hfresh as (Htid & Hdid & Hne).
    intros [= <-]. unfold Linked, pending. cbn.
    split; [|split; [|split; [|split; [|split]]]].
    + intros id. rewrite fmap_app, elem_of_app, lookup_insert. cbn.
      rewrite list_elem_of_singleton, Hlink. case_decide as Hid.
      * subst. split; [by eexists|by right].
      * split; [by intros [?|?]|by left].
    + rewrite fmap_app. apply NoDup_app. repeat split; [done| |apply NoDup_singleton].
      intros x [task [-> Ht]]%list_elem_of_fmap Heq%list_elem_of_singleton.
      cbn in Heq. apply Htid. rewrite <- Heq. by apply Htask.
    + rewrite fmap_app. apply NoDup_app. repeat split; [done| |apply NoDup_singleton].
      intros x Hx Heq%list_elem_of_singleton. cbn in Heq. subst x.
      apply Hlink in Hx as [d Hd]. by apply Hdid, (Hdep _ d).
    + intros id. rewrite fmap_app, <- app_assoc. cbn. rewrite lookup_insert.
      case_decide; [by eexists|]. intros Hin. apply Hpd. unfold pending.
      rewrite elem_of_app in *. rewrite elem_of_cons in Hin.
      destruct Hin as [?|[?|?]]; [by left|done|by right].
    + intros k vm Hk. destruct (Hvms k vm Hk). split; [done|]. rewrite elem_of_app. by left.
    + done.
  - destruct (spawned sys !! i) as [[deploymentID createVMBody]|] eqn:Hi; [|done].
    case_bool_decide as Hfresh; [|done]. intros [= <-]. unfold Linked, pending. cbn.
    split; [done|]. split; [done|]. split; [done|]. split; [|split].
    + intros id Hin. apply Hpd. unfold pending.
      rewrite fmap_app, !elem_of_app in Hin. cbn in Hin.
      rewrite list_elem_of_singleton in Hin. rewrite elem_of_app.
      destruct Hin as [Hin|[Hin| ->]]; [left|by right|left].
      * apply list_elem_of_fmap in Hin as (g & -> & Hg).
        apply list_elem_of_fmap_2. by eapply list_elem_of_delete_inv.
      * apply (list_elem_of_fmap_2' _ _ (go_simulateVMCreation deploymentID createVMBody));
          [|done]. by eapply list_elem_of_lookup_2.
    + intros k vm. rewrite lookup_insert. case_decide as Hk.
      * subst. intros [= <-]. cbn. split; [done|]. rewrite elem_of_app, list_elem_of_singleton.
        by right.
      * intros Hk'. destruct (Hvms k vm Hk'). split; [done|]. rewrite elem_of_app. by left.
    + intros u. rewrite <- app_assoc, elem_of_app. cbn. rewrite elem_of_cons.
      rewrite lookup_insert. case_decide as Hk; [by eexists|].
      intros [Hu|[->|Hu]]; [| done |]; apply Hupd; rewrite elem_of_app; tauto.
  - destruct (updateChannel (service sys) !! i) as [update|] eqn:Hi; [|done].
    intros [= <-]. unfold Linked, pending. cbn.
    rewrite UpdateDeploymentStatus_iter_tasks, UpdateDeploymentStatus_iter_vms,
      UpdateDeploymentStatus_iter_updateChannel. cbn.
    split; [|split; [done|split; [done|split; [|split; [done|]]]]].
    + intros id. by rewrite UpdateDeploymentStatus_iter_is_Some.
    + intros id Hin. rewrite UpdateDeploymentStatus_iter_is_Some. cbn. apply Hpd.
      unfold pending. rewrite elem_of_app in *. destruct Hin as [?|Hin]; [by left|right].
      apply list_elem_of_fmap in Hin as (u & -> & Hu).
      apply list_elem_of_fmap_2. by eapply list_elem_of_delete_inv.
    + intros u Hu. apply Hupd. rewrite !elem_of_app in *. rewrite list_elem_of_singleton in Hu.
      destruct Hu as [Hu|[Hu| ->]]; [left|by right|left].
      * by eapply list_elem_of_delete_inv.
      * by eapply list_elem_of_lookup_2.
Qed.

Lemma run_Linked trace : ∀ sys sys',
  Inv sys → Linked sys → run trace sys = Some sys' → Linked sys'.
Proof.
  induction trace as [|e trace IH]; intros sys sys' Hinv Hl; cbn.
  - by intros [= <-].
  - destruct (step sys e) as [sys1|] eqn:Hstep; [|done].
    apply IH; [by eapply step_Inv|by eapply step_Linked].
Qed.

Lemma reachable_Linked sys : reachable sys → Linked sys.
Proof.
  intros [trace Hrun]. eapply run_Linked; [apply Inv_initial|apply Linked_initial|done].
Qed.

(** Entering and leaving [CreateVM] with nothing in between is the step
    [Call_CreateVM]: the finer schedule refines the coarser one. *)
Lemma advance_Enter_Leave p createVMBody taskID deploymentID :
  in_call p = None →
  match advance p (Enter_CreateVM createVMBody taskID deploymentID) with
  | Some p1 => advance p1 Leave_CreateVM
  | None => None
  end
  = match step (state p) (Call_CreateVM createVMBody taskID deploymentID) with
    | Some sys => Some {| state := sys; in_call := None |}
    | None => None
    end.
Proof.
  intros Hc. unfold advance, step. rewrite Hc. by case_bool_decide.
Qed.

Lemma Corresponding_started : Corresponding started.
Proof.
  unfold Corresponding, tasks_with_call; cbn. split; [|split; [|split; [|split]]].
  - intros id. rewrite lookup_empty. split; [by intros ?%elem_of_nil|by intros [? ?]].
  - constructor.
  - constructor.
  - by intros task ?%elem_of_nil.
  - intros id d. by rewrite lookup_empty.
Qed.

Lemma advance_Corresponding p point p' :
  Corresponding p → advance p point = Some p' → Corresponding p'.
Proof.
  destruct p as [sys call]. unfold Corresponding, tasks_with_call. cbn.
  intros (Hlink & Hnt & Hnd & Htask & Hdep).
  destruct point as [createVMBody taskID deploymentID | | e]; cbn.
  - destruct call as [task|]; [done|]. cbn in *. rewrite app_nil_r in *.
    case_bool_decide as Hfresh; [|done]. destruct Hfresh as (Htid & Hdid & Hne).
    intros [= <-]. cbn. split; [|split; [|split; [|split]]].
    + intros id. rewrite fmap_app, elem_of_app, lookup_insert. cbn.
      rewrite list_elem_of_singleton, Hlink. case_decide as Hid.
      * subst. split; [by eexists|by right].
      * split; [by intros [?|?]|by left].
    + rewrite fmap_app. apply NoDup_app. repeat split; [done| |apply NoDup_singleton].
      intros x [task [-> Ht]]%list_elem_of_fmap Heq%list_elem_of_singleton.
      cbn in Heq. apply Htid. rewrite <- Heq. by apply Htask.
    + rewrite fmap_app. apply NoDup_app. repeat split; [done| |apply NoDup_singleton].
      intros x Hx Heq%list_elem_of_singleton. cbn in Heq. subst x.
      apply Hlink in Hx as [d Hd]. by apply Hdid, (Hdep _ d).
    + intros task. rewrite !elem_of_app, list_elem_of_singleton.
      intros [Ht| ->]; [left; by apply Htask|right; cbn; apply elem_of_cons; by left].
    + intros id d. rewrite lookup_insert. case_decide as Hid.
      * subst. intros [= <-]. cbn. split; [done|]. rewrite elem_of_app. right.
        apply elem_of_cons. right. apply elem_of_cons. by left.
      * intros Hd. destruct (Hdep _ _ Hd). split; [done|]. rewrite elem_of_app. by left.
  - destruct call as [task|]; [|done]. intros [= <-]. cbn in *.
    by rewrite app_nil_r.
  - destruct e as [createVMBody taskID deploymentID | i vmID | i]; [done|..]; cbn.
    + destruct (spawned sys !! i) as [[deploymentID createVMBody]|]; [|done].
      case_bool_decide; [|done]. intros [= <-]. cbn.
      split; [done|]. split; [done|]. split; [done|]. split.
      * intros task Ht. rewrite elem_of_app. left. by apply Htask.
      * intros id d Hd. destruct (Hdep _ _ Hd). split; [done|]. rewrite elem_of_app.
        by left.
    + destruct (updateChannel (service sys) !! i) as [update|]; [|done].
      intros [= <-]. cbn. rewrite UpdateDeploymentStatus_iter_tasks. cbn.
      split; [|split; [done|split; [done|split; [done|]]]].
      * intros id. by rewrite UpdateDeploymentStatus_iter_is_Some.
      * intros id d. rewrite UpdateDeploymentStatus_iter_lookup. cbn.
        case_decide; [|apply Hdep].
        destruct (deployments (service sys) !! id) as [d0|] eqn:Hd0; [|done].
        intros [= <-]. cbn. apply (Hdep _ _ Hd0).
Qed.

Lemma advances_Corresponding points : ∀ p p',
  Corresponding p → advances points p = Some p' → Corresponding p'.
Proof.
  induction points as [|point points IH]; intros p p' Hc; cbn.
  - by intros [= <-].
  - destruct (advance p point) as [p1|] eqn:Hstep; [|done].
    apply IH. by eapply advance_Corresponding.
Qed.

(** X20: tasks and deployments correspond, also while a call of [CreateVM] is
    between storing its deployment and appending its task.  At every point of
    every schedule in which the calls of [CreateVM] do not overlap each other:
    each task names a stored deployment carrying that ID; each stored
    deployment is named by a task, or is the deployment of the call in
    progress, whose task is not on the list yet; no two tasks share a task ID
    or a deployment; and there are as many deployments as tasks, plus one
    while a call is between its [createDeployment] and its append. *)
Theorem tasks_and_deployments_correspond (points : list Point) (p : Pipeline) :
  advances points started = Some p →
  let s := service (state p) in
  (∀ task, task ∈ tasks s →
     ∃ d, deployments s !! VMCreationTask.DeploymentID task = Some d
          ∧ VMDeployment.ID d = VMCreationTask.DeploymentID task)
  ∧ (∀ id d, deployments s !! id = Some d →
       (∃ task, task ∈ tasks s ∧ VMCreationTask.DeploymentID task = id)
       ∨ (∃ task, in_call p = Some task ∧ VMCreationTask.DeploymentID task = id
                  ∧ id ∉ VMCreationTask.DeploymentID <$> tasks s))
  ∧ NoDup (VMCreationTask.TaskID <$> tasks s)
  ∧ NoDup (VMCreationTask.DeploymentID <$> tasks s)
  ∧ (length (tasks s) + length (option_list (in_call p)))%nat = size (deployments s).
Proof.
  intros Hrun. cbn zeta.
  pose proof (advances_Corresponding _ _ _ Corresponding_started Hrun)
    as (Hlink & Hnt & Hnd & _ & Hdep).
  unfold tasks_with_call in *. rewrite fmap_app in Hnt, Hnd.
  apply NoDup_app in Hnt as (Hnt & _ & _). apply NoDup_app in Hnd as (Hnd1 & Hnd2 & Hnd3).
  split; [|split; [|split; [done|split; [done|]]]].
  - intros task Ht.
    destruct (proj1 (Hlink (VMCreationTask.DeploymentID task))) as [d Hd].
    { rewrite fmap_app, elem_of_app. left. by apply list_elem_of_fmap_2. }
    exists d. split; [done|]. by apply (Hdep _ d).
  - intros id d Hd.
    assert (id ∈ VMCreationTask.DeploymentID
                   <$> (tasks (service (state p)) ++ option_list (in_call p))) as Hin
      by (apply Hlink; by eexists).
    rewrite fmap_app, elem_of_app in Hin. destruct Hin as [Hin|Hin].
    + left. apply list_elem_of_fmap in Hin as (task & -> & Ht). by exists task.
    + right. destruct (in_call p) as [task|]; cbn in Hin; [|by apply elem_of_nil in Hin].
      apply list_elem_of_singleton in Hin as ->. exists task. split; [done|]. split; [done|].
      intros Hin. apply (Hnd2 _ Hin). cbn. apply elem_of_cons. by left.
  - rewrite <- size_dom, <- length_app.
    rewrite <- (length_fmap VMCreationTask.DeploymentID).
    rewrite <- (size_list_to_set (C := gset string)).
    + f_equal. apply set_eq. intros id. by rewrite elem_of_list_to_set, elem_of_dom.
    + rewrite fmap_app. apply NoDup_app. by repeat split.
Qed.

Lemma tasks_and_deployments_correspond_witness :
  ∃ p, advances web1_before_append started = Some p
       ∧ tasks (service (state p)) = []
       ∧ deployments (service (state p)) !! "d1" = Some (web1_deployment "created")
       ∧ in_call p = Some (VMCreationTask.mk "t1" "d1")
       ∧ (length (tasks (service (state p))) + length (option_list (in_call p)))%nat
         = size (deployments (service (state p))).
Proof.
  eexists. split; [by vm_compute|]. split; [reflexivity|]. split; [reflexivity|].
  split; [reflexivity|].
  refine (proj2 (proj2 (proj2 (proj2
            (tasks_and_deployments_correspond web1_before_append _ _))))).
  by vm_compute.
Defined.

(** X21: no update is ever dropped.  In every state the pipeline reaches, an
    update waiting on the channel names a stored deployment that is still in
    progress, and a stored VM; receiving it therefore always takes the branch
    that sets the status, never the one that skips an unknown deployment. *)
Theorem waiting_update_names_stored_deployment (sys : System)
    (update : DeploymentUpdate.t) :
  reachable sys → update ∈ updateChannel (service sys) →
  ∃ d, deployments (service sys) !! DeploymentUpdate.DeploymentID update = Some d
       ∧ VMDeployment.Status d = "in-progress"
       ∧ is_Some (vms (service sys) !! DeploymentUpdate.ResourceID update)
       ∧ deployments (UpdateDeploymentStatus_iter (service sys) update)
           !! DeploymentUpdate.DeploymentID update = Some (set_created d).
Proof.
  intros Hr Hu. pose proof (reachable_Inv _ Hr) as (Hdep & _).
  pose proof (reachable_Linked _ Hr) as (_ & _ & _ & Hpd & _ & Hupd).
  assert (DeploymentUpdate.DeploymentID update ∈ pending sys) as Hp.
  { unfold pending. rewrite elem_of_app. right. by apply list_elem_of_fmap_2. }
  destruct (Hpd _ Hp) as [d Hd]. exists d. split; [done|].
  destruct (Hdep _ d Hd) as (_ & _ & _ & [(_ & Hs & _)|(_ & _ & Hnp)]); [|done].
  split; [done|]. split; [apply Hupd; rewrite elem_of_app; by left|].
  rewrite UpdateDeploymentStatus_iter_lookup. rewrite decide_True by done. by rewrite Hd.
Qed.

Lemma waiting_update_names_stored_deployment_witness :
  let sys := default initial
               (run [Call_CreateVM web1 "t1" "d1"; Run_simulateVMCreation 0 "v1"] initial) in
  reachable sys ∧ web1_update ∈ updateChannel (service sys)
  ∧ ∃ d, deployments (service sys) !! DeploymentUpdate.DeploymentID web1_update = Some d
         ∧ VMDeployment.Status d = "in-progress"
         ∧ is_Some (vms (service sys) !! DeploymentUpdate.ResourceID web1_update)
         ∧ deployments (UpdateDeploymentStatus_iter (service sys) web1_update)
             !! DeploymentUpdate.DeploymentID web1_update = Some (set_created d).
Proof.
  cbn zeta.
  set (sys := default initial
                (run [Call_CreateVM web1 "t1" "d1"; Run_simulateVMCreation 0 "v1"] initial)).
  assert (reachable sys) as Hr
    by (exists [Call_CreateVM web1 "t1" "d1"; Run_simulateVMCreation 0 "v1"]; by vm_compute).
  assert (web1_update ∈ updateChannel (service sys)) as Hu
    by (apply (bool_decide_unpack _); by vm_compute).
  split; [exact Hr|]. split; [exact Hu|].
  exact (waiting_update_names_stored_deployment sys web1_update Hr Hu).
Defined.

(** X22: every deployment in progress can be completed.  From any state the
    pipeline reaches, and for any deployment in progress there, there is a
    schedule of at most two steps that leaves it created: its goroutine runs
    to its send if it has not yet, and the loop receives its update.  No
    state is a dead end for a deployment; which steps are taken, and when, is
    up to the scheduler. *)
Theorem in_progress_deployment_can_complete (sys : System) (id : string)
    (d : VMDeployment.t) :
  reachable sys →
  deployments (service sys) !! id = Some d →
  VMDeployment.Status d = "in-progress" →
  ∃ trace sys',
    (length trace ≤ 2)%nat ∧ run trace sys = Some sys'
    ∧ deployments (service sys') !! id = Some (set_created d).
Proof.
  intros Hr Hd Hs. pose proof (reachable_Inv _ Hr) as (Hdep & _).
  destruct (Hdep _ d Hd) as (_ & _ & _ & [(_ & _ & Hp)|(_ & Hc & _)]); [|congruence].
  unfold pending in Hp. apply elem_of_app in Hp as [Hp|Hp].
  - apply list_elem_of_fmap in Hp as ([id' body] & -> & Hg). cbn in *.
    apply list_elem_of_lookup_1 in Hg as [i Hi].
    set (vmID := fresh (issued sys)).
    exists [Run_simulateVMCreation i vmID;
            Loop_receive (length (updateChannel (service sys)))]. eexists.
    split; [cbn; lia|]. cbn. rewrite Hi.
    rewrite bool_decide_eq_true_2 by apply infinite_is_fresh. cbn.
    rewrite list_lookup_middle by done. split; [reflexivity|]. cbn.
    rewrite UpdateDeploymentStatus_iter_lookup. cbn. rewrite decide_True by done.
    by rewrite Hd.
  - apply list_elem_of_fmap in Hp as (u & -> & Hu).
    apply list_elem_of_lookup_1 in Hu as [i Hi].
    exists [Loop_receive i]. eexists. split; [cbn; lia|]. cbn. rewrite Hi.
    split; [reflexivity|]. cbn.
    rewrite UpdateDeploymentStatus_iter_lookup. cbn. rewrite decide_True by done.
    by rewrite Hd.
Qed.

Lemma in_progress_deployment_can_complete_witness :
  reachable web1_accepted
  ∧ deployments (service web1_accepted) !! "d1" = Some (web1_deployment "in-progress")
  ∧ VMDeployment.Status (web1_deployment "in-progress") = "in-progress"
  ∧ ∃ trace sys',
      (length trace ≤ 2)%nat ∧ run trace web1_accepted = Some sys'
      ∧ deployments (service sys') !! "d1"
        = Some (set_created (web1_deployment "in-progress")).
Proof.
  assert (reachable web1_accepted) as Hr
    by (exists [Call_CreateVM web1 "t1" "d1"]; by vm_compute).
  assert (deployments (service web1_accepted) !! "d1" = Some (web1_deployment "in-progress"))
    as Hd by (by vm_compute).
  assert (VMDeployment.Status (web1_deployment "in-progress") = "in-progress") as Hs
    by reflexivity.
  split; [exact Hr|]. split; [exact Hd|]. split; [exact Hs|].
  exact (in_progress_deployment_can_complete web1_accepted "d1" _ Hr Hd Hs).
Defined.

(** X23: one request served to the end.  From any state, with three UUIDs not
    drawn before, the schedule in which [CreateVM] is called, the goroutine
    it started runs, and the loop receives that goroutine's update, leaves
    the new deployment created, the new task appended, and a VM stored under
    the third UUID with the name, CPU count and memory size of the request. *)
Theorem request_served_to_the_end (sys : System) (createVMBody : CreateVMBody.t)
    (taskID deploymentID vmID : string) :
  taskID ∉ issued sys → deploymentID ∉ issued sys → vmID ∉ issued sys →
  taskID ≠ deploymentID → vmID ≠ taskID → vmID ≠ deploymentID →
  ∃ sys',
    run [ Call_CreateVM createVMBody taskID deploymentID;
          Run_simulateVMCreation (length (spawned sys)) vmID;
          Loop_receive (length (updateChannel (service sys))) ] sys = Some sys'
    ∧ deployments (service sys') !! deploymentID
      = Some (VMDeployment.mk deploymentID "" "created")
    ∧ tasks (service sys')
      = tasks (service sys) ++ [VMCreationTask.mk taskID deploymentID]
    ∧ vms (service sys') !! vmID
      = Some (VM.mk vmID (CreateVMBody.Name createVMBody)
                (CreateVMBody.NumCPUs createVMBody) (CreateVMBody.MemoryMB createVMBody))
    ∧ updateChannel (service sys') = updateChannel (service sys)
    ∧ spawned sys' = spawned sys.
Proof.
  intros Htid Hdid Hvid Hne1 Hne2 Hne3. eexists. cbn.
  rewrite bool_decide_eq_true_2 by done. cbn.
  rewrite list_lookup_middle by done.
  rewrite bool_decide_eq_true_2
    by (rewrite elem_of_app, !elem_of_cons, elem_of_nil; tauto). cbn.
  rewrite list_lookup_middle by done. split; [reflexivity|]. cbn.
  rewrite UpdateDeploymentStatus_iter_lookup, UpdateDeploymentStatus_iter_tasks,
    UpdateDeploymentStatus_iter_vms, UpdateDeploymentStatus_iter_updateChannel. cbn.
  rewrite decide_True by done. rewrite !lookup_insert_eq. cbn.
  rewrite !delete_middle, !app_nil_r. done.
Qed.

Lemma request_served_to_the_end_witness :
  ("t2" ∉ issued web1_reconciled) ∧ ("d2" ∉ issued web1_reconciled)
  ∧ ("v2" ∉ issued web1_reconciled) ∧ "t2" ≠ "d2" ∧ "v2" ≠ "t2" ∧ "v2" ≠ "d2"
  ∧ ∃ sys',
      run [ Call_CreateVM web1 "t2" "d2";
            Run_simulateVMCreation (length (spawned web1_reconciled)) "v2";
            Loop_receive (length (updateChannel (service web1_reconciled))) ]
        web1_reconciled = Some sys'
      ∧ deployments (service sys') !! "d2" = Some (VMDeployment.mk "d2" "" "created")
      ∧ tasks (service sys')
        = tasks (service web1_reconciled) ++ [VMCreationTask.mk "t2" "d2"]
      ∧ vms (service sys') !! "v2"
        = Some (VM.mk "v2" (CreateVMBody.Name web1) (CreateVMBody.NumCPUs web1)
                  (CreateVMBody.MemoryMB web1))
      ∧ updateChannel (service sys') = updateChannel (service web1_reconciled)
      ∧ spawned sys' = spawned web1_reconciled.
Proof.
  assert ("t2" ∉ issued web1_reconciled) as H1 by (apply (bool_decide_unpack _); by vm_compute).
  assert ("d2" ∉ issued web1_reconciled) as H2 by (apply (bool_decide_unpack _); by vm_compute).
  assert ("v2" ∉ issued web1_reconciled) as H3 by (apply (bool_decide_unpack _); by vm_compute).
  assert ("t2" ≠ "d2") as H4 by done.
  assert ("v2" ≠ "t2") as H5 by done.
  assert ("v2" ≠ "d2") as H6 by done.
  split; [exact H1|]. split; [exact H2|]. split; [exact H3|]. split; [exact H4|].
  split; [exact H5|]. split; [exact H6|].
  exact (request_served_to_the_end web1_reconciled web1 "t2" "d2" "v2" H1 H2 H3 H4 H5 H6).
Defined.

(** ** Handlers *)

Lemma slice_from_short n : ∀ s,
  (String.length s < n)%nat → slice_from n s = Panic "slice bounds out of range".
Proof.
  induction n as [|n IH]; intros [|a s]; cbn; try lia; [done|].
  intros Hlen. apply IH. lia.
Qed.

Lemma slice_from_prefix prefix : ∀ rest,
  slice_from (String.length prefix) (prefix +:+ rest) = Return rest.
Proof.
  induction prefix as [|a prefix IH]; intros rest; cbn; [by destruct rest|]. apply IH.
Qed.

Lemma slice_from_length n prefix rest :
  String.length prefix = n → slice_from n (prefix +:+ rest) = Return rest.
Proof. intros <-. apply slice_from_prefix. Qed.

Lemma ValidateToken_not_authentic t now tokenString :
  ¬ authentic t now tokenString →
  ∃ err, ValidateToken t now tokenString = Return (None, Some err).
Proof.
  intros Hna. destruct (Parse_total t now tokenString) as [Hp|(tok & err & Hp)].
  - by destruct Hna.
  - exists err. unfold ValidateToken. rewrite Hp. by destruct tok.
Qed.

(** A token [ValidateToken] lets through is accepted by [jwt.Parse], and its
    identifier, if it has one, is not on the list. *)
Lemma ValidateToken_passes t now tokenString user :
  ValidateToken t now tokenString = Return (user, None) →
  authentic t now tokenString
  ∧ ∀ jti, claims_of tokenString !! "jti" = Some (VString jti) → jti ∉ rejectedTokens t.
Proof.
  intros Hv. assert (authentic t now tokenString) as Ha.
  { destruct (Parse_total t now tokenString) as [Hp|(tok & err & Hp)]; [done|].
    unfold ValidateToken in Hv. rewrite Hp in Hv. by destruct tok. }
  split; [done|]. intros jti Hjti Hin.
  assert (ValidateToken t now tokenString = Return (None, Some Revoked)) as Hrev
    by (apply ValidateToken_Revoked_iff; eauto).
  congruence.
Qed.

(** X24: a short Authorization header.  A header that is not empty but has
    fewer than seven bytes (the bare word Bearer, say) makes the middleware
    panic in [tokenString[7:]], and the [reject] handler too; the token
    service is not consulted and not changed. *)
Theorem short_Authorization_header_panics (decode : string → jwt.TokenString)
    (t : tokenService) (now : Z) (authorization : string) :
  authorization ≠ "" → (String.length authorization < 7)%nat →
  AuthMiddleware decode t now authorization = Panic "slice bounds out of range"
  ∧ reject decode t now authorization = (t, Panic "slice bounds out of range").
Proof.
  intros Hne Hlen. unfold AuthMiddleware, reject. cbn zeta.
  rewrite !bool_decide_eq_false_2 by done. by rewrite slice_from_short.
Qed.

Lemma short_Authorization_header_panics_witness :
  "Bearer" ≠ "" ∧ (String.length "Bearer" < 7)%nat
  ∧ AuthMiddleware sample_decode main_tokenService 1001 "Bearer"
    = Panic "slice bounds out of range"
  ∧ reject sample_decode main_tokenService 1001 "Bearer"
    = (main_tokenService, Panic "slice bounds out of range").
Proof.
  assert ("Bearer" ≠ "") as H1 by done.
  assert (String.length "Bearer" < 7)%nat as H2 by (cbn; lia).
  split; [exact H1|]. split; [exact H2|].
  exact (short_Authorization_header_panics sample_decode main_tokenService 1001 "Bearer" H1 H2).
Defined.

(** X25: the scheme is not checked.  The middleware and [reject] drop the
    first seven bytes of the header without looking at them: two headers that
    agree from the eighth byte on are treated alike, whether they start with
    "Bearer " or not. *)
Theorem Authorization_prefix_is_ignored (decode : string → jwt.TokenString)
    (t : tokenService) (now : Z) (prefix prefix' rest : string) :
  String.length prefix = 7%nat → String.length prefix' = 7%nat →
  AuthMiddleware decode t now (prefix +:+ rest)
  = AuthMiddleware decode t now (prefix' +:+ rest)
  ∧ reject decode t now (prefix +:+ rest) = reject decode t now (prefix' +:+ rest).
Proof.
  intros Hp Hp'. unfold AuthMiddleware, reject. cbn zeta.
  assert (∀ p, String.length p = 7%nat → p +:+ rest ≠ "") as Hne
    by (by intros [|a p]).
  rewrite !bool_decide_eq_false_2 by auto.
  by rewrite !(slice_from_length 7 prefix), !(slice_from_length 7 prefix').
Qed.

Lemma Authorization_prefix_is_ignored_witness :
  String.length "Bearer " = 7%nat ∧ String.length "Basic: " = 7%nat
  ∧ AuthMiddleware sample_decode main_tokenService 1001 ("Bearer " +:+ "alice.token")
    = AuthMiddleware sample_decode main_tokenService 1001 ("Basic: " +:+ "alice.token")
  ∧ reject sample_decode main_tokenService 1001 ("Bearer " +:+ "alice.token")
    = reject sample_decode main_tokenService 1001 ("Basic: " +:+ "alice.token").
Proof.
  assert (String.length "Bearer " = 7%nat) as H1 by reflexivity.
  assert (String.length "Basic: " = 7%nat) as H2 by reflexivity.
  split; [exact H1|]. split; [exact H2|].
  exact (Authorization_prefix_is_ignored sample_decode main_tokenService 1001
           "Bearer " "Basic: " "alice.token" H1 H2).
Defined.

(** What the middleware hands on, when it does: a pointer under ["user"]. *)
Lemma AuthMiddleware_Next decode t now authorization keys :
  AuthMiddleware decode t now authorization = Return (Next keys) →
  ∃ raw user, slice_from 7 authorization = Return raw
              ∧ ValidateToken t now (decode raw) = Return (user, None)
              ∧ keys = <["user" := any_User_ptr <$> user]> ∅.
Proof.
  unfold AuthMiddleware. cbn zeta. case_bool_decide; [done|].
  destruct (slice_from 7 authorization) as [raw|v] eqn:Hs; cbn; [|done].
  destruct (ValidateToken t now (decode raw)) as [[user [err|]]|v] eqn:Hv; cbn; try done.
  intros [= <-]. by exists raw, user.
Qed.

Lemma AuthMiddleware_Aborted decode t now authorization response :
  AuthMiddleware decode t now authorization = Return (Aborted response) →
  Code response = StatusUnauthorized.
Proof.
  unfold AuthMiddleware. cbn zeta. case_bool_decide; [by intros [= <-]|].
  destruct (slice_from 7 authorization) as [raw|v]; cbn; [|done].
  destruct (ValidateToken t now (decode raw)) as [[user [err|]]|v]; cbn; try done.
  by intros [= <-].
Qed.

(** The handlers of [GET /] return no response but the 401 of the
    middleware. *)
Lemma GET_home_Return (decode : string → jwt.TokenString)
    (t : tokenService) (now : Z) (authorization : string) (response : Response) :
  GET_home decode t now authorization = Return response →
  Code response = StatusUnauthorized.
Proof.
  unfold GET_home.
  destruct (AuthMiddleware decode t now authorization) as [[r|keys]|v] eqn:Hm; cbn;
    [| |done].
  - intros [= <-]. by eapply AuthMiddleware_Aborted.
  - apply AuthMiddleware_Next in Hm as (raw & user & _ & _ & ->).
    unfold home, MustGet. rewrite lookup_insert_eq. cbn. by destruct user.
Qed.

(** X26: the route [GET /] never answers 200.  Whatever the header, the token
    service and the time, the route answers, and with 401 or 500: with the 401
    of the middleware when the header is empty or [ValidateToken] returns an
    error, and with the 500 of [Recovery] in every other case, which are the
    cases in which a handler panics. *)
Theorem GET_home_never_answers_OK (decode : string → jwt.TokenString)
    (t : tokenService) (now : Z) (authorization : string) :
  ∃ answer,
    serve_GET_home decode t now authorization = Return answer
    ∧ StatusCode answer ≠ StatusOK
    ∧ (StatusCode answer = StatusUnauthorized
       ∨ StatusCode answer = StatusInternalServerError)
    ∧ (StatusCode answer = StatusUnauthorized ↔
       authorization = ""
       ∨ ∃ raw user err, slice_from 7 authorization = Return raw
                         ∧ ValidateToken t now (decode raw) = Return (user, Some err))
    ∧ (StatusCode answer = StatusInternalServerError ↔
       ∃ v, GET_home decode t now authorization = Panic v).
Proof.
  assert (StatusInternalServerError ≠ StatusUnauthorized) as H1 by (by vm_compute).
  assert (StatusUnauthorized ≠ StatusInternalServerError) as H2 by (by vm_compute).
  assert (StatusInternalServerError ≠ StatusOK) as H3 by (by vm_compute).
  assert (StatusUnauthorized ≠ StatusOK) as H4 by (by vm_compute).
  unfold serve_GET_home, GET_home, AuthMiddleware. cbn zeta.
  case_bool_decide as Hempty.
  { eexists. split; [reflexivity|]. cbn.
    split; [done|]. split; [by left|]. split; [by split; [left|]|].
    split; [done|by intros [v ?]]. }
  destruct (slice_from 7 authorization) as [raw|v] eqn:Hs; cbn.
  2:{ eexists. split; [reflexivity|]. cbn.
      split; [done|]. split; [by right|]. split; [|by split; [exists v|]].
      split; [done|]. by intros [?|(? & ? & ? & ? & _)]. }
  destruct (ValidateToken t now (decode raw)) as [[user [err|]]|v] eqn:Hv; cbn.
  - eexists. split; [reflexivity|]. cbn.
    split; [done|]. split; [by left|]. split; [|split; [done|by intros [v ?]]].
    split; [|done]. intros _. right. by exists raw, user, err.
  - unfold home, MustGet. rewrite lookup_insert_eq. cbn.
    assert (∃ v, assert_User (any_User_ptr <$> user) = Panic v) as [v ->]
      by (destruct user; by eexists).
    cbn. eexists. split; [reflexivity|]. cbn.
    split; [done|]. split; [by right|]. split; [|by split; [exists v|]].
    split; [done|]. intros [?|(? & ? & ? & [= <-] & Hv')]; [done|].
    rewrite Hv in Hv'. by injection Hv'.
  - eexists. split; [reflexivity|]. cbn.
    split; [done|]. split; [by right|]. split; [|by split; [exists v|]].
    split; [done|]. intros [?|(? & ? & ? & [= <-] & Hv')]; [done|].
    by rewrite Hv in Hv'.
Qed.

(** X27: the handlers of [GET /] panic for an authenticated request.  When the
    token of the header verifies, the middleware stores the [*User] under
    ["user"], and [home] panics asserting a [User]. *)
Theorem GET_home_panics_when_authenticated (decode : string → jwt.TokenString)
    (t : tokenService) (now : Z) (authorization raw : string) (user : User) :
  slice_from 7 authorization = Return raw →
  ValidateToken t now (decode raw) = Return (Some user, None) →
  AuthMiddleware decode t now authorization
  = Return (Next (<["user" := Some (any_User_ptr user)]> ∅))
  ∧ GET_home decode t now authorization
    = Panic "interface conversion: interface {} is not main.User".
Proof.
  intros Hs Hv. assert (authorization ≠ "") as Hne by (by intros ->).
  unfold GET_home, AuthMiddleware. cbn zeta.
  rewrite bool_decide_eq_false_2 by done. rewrite Hs. cbn. rewrite Hv. cbn.
  split; [done|]. unfold home, MustGet. by rewrite lookup_insert_eq.
Qed.

Lemma GET_home_panics_when_authenticated_witness :
  slice_from 7 "Bearer alice.token" = Return "alice.token"
  ∧ ValidateToken main_tokenService 1001 (sample_decode "alice.token")
    = Return (Some (mkUser "u1" "alice" "" "" "" "" 0), None)
  ∧ AuthMiddleware sample_decode main_tokenService 1001 "Bearer alice.token"
    = Return (Next (<["user" := Some (any_User_ptr (mkUser "u1" "alice" "" "" "" "" 0))]> ∅))
  ∧ GET_home sample_decode main_tokenService 1001 "Bearer alice.token"
    = Panic "interface conversion: interface {} is not main.User".
Proof.
  assert (slice_from 7 "Bearer alice.token" = Return "alice.token") as H1 by reflexivity.
  assert (ValidateToken main_tokenService 1001 (sample_decode "alice.token")
          = Return (Some (mkUser "u1" "alice" "" "" "" "" 0), None)) as H2
    by (by vm_compute).
  split; [exact H1|]. split; [exact H2|].
  exact (GET_home_panics_when_authenticated sample_decode main_tokenService 1001
           "Bearer alice.token" "alice.token" _ H1 H2).
Defined.

(** What one request to [POST /reject] can do to the token service. *)
Lemma POST_reject_effect decode t now1 now2 authorization :
  let t' := (POST_reject decode t now1 now2 authorization).1 in
  secret t' = secret t
  ∧ (rejectedTokens t' = rejectedTokens t
     ∨ ∃ jti, (jti ∉ rejectedTokens t) ∧ rejectedTokens t' = rejectedTokens t ++ [jti]).
Proof.
  cbn zeta. unfold POST_reject.
  destruct (AuthMiddleware decode t now1 authorization) as [[r|keys]|v] eqn:Hm;
    [by split; [|left]| |by split; [|left]].
  apply AuthMiddleware_Next in Hm as (raw & user & Hs & Hv & _).
  apply ValidateToken_passes in Hv as [_ Hnot].
  unfold reject. cbn zeta. case_bool_decide; [by split; [|left]|]. rewrite Hs.
  destruct (RejectToken_effect t now2 (decode raw)) as [Hsec Hl].
  destruct (RejectToken t now2 (decode raw)) as [t' [[err|]|v]]; cbn in *;
    (split; [done|]);
    (destruct Hl as [->|(jti & _ & Hjti & _ & ->)]; [by left|right; exists jti; auto]).
Qed.

Lemma POST_rejects_cons decode request requests t :
  POST_rejects decode (request :: requests) t
  = POST_rejects decode requests
      (POST_reject decode t request.1.1 request.1.2 request.2).1.
Proof. reflexivity. Qed.

Lemma POST_rejects_grows decode requests : ∀ t,
  secret (POST_rejects decode requests t) = secret t
  ∧ ∀ jti, jti ∈ rejectedTokens t → jti ∈ rejectedTokens (POST_rejects decode requests t).
Proof.
  induction requests as [|[[now1 now2] auth] requests IH]; intros t; [done|].
  rewrite POST_rejects_cons. cbn [fst snd].
  destruct (IH (POST_reject decode t now1 now2 auth).1) as [Hs Hin].
  destruct (POST_reject_effect decode t now1 now2 auth) as [Hs1 Hl].
  split; [by rewrite Hs|]. intros jti Hjti. apply Hin.
  destruct Hl as [->|(j & _ & ->)]; [done|]. rewrite elem_of_app. by left.
Qed.

(** X28: through the routes, the rejected list holds no identifier twice.
    [POST /reject] sits behind the middleware, which refuses a token whose
    identifier is on the list; so requests served one after the other, from
    a list without duplicates (the empty one at start-up), leave a list
    without duplicates, whatever the headers and the clock readings. *)
Theorem POST_reject_never_duplicates (decode : string → jwt.TokenString)
    (requests : list (Z * Z * string)) (t : tokenService) :
  NoDup (rejectedTokens t) → NoDup (rejectedTokens (POST_rejects decode requests t)).
Proof.
  revert t. induction requests as [|[[now1 now2] auth] requests IH]; intros t Hnd; [done|].
  rewrite POST_rejects_cons. cbn [fst snd]. apply IH.
  destruct (POST_reject_effect decode t now1 now2 auth) as [_ [->|(jti & Hnot & ->)]];
    [done|].
  apply NoDup_app. repeat split; [done| |apply NoDup_singleton].
  by intros x Hx ->%list_elem_of_singleton.
Qed.

Lemma POST_reject_never_duplicates_witness :
  NoDup (rejectedTokens main_tokenService)
  ∧ rejectedTokens
      (POST_rejects sample_decode
         [(1001, 1001, "Bearer alice.token"); (1002, 1002, "Bearer alice.token")]
         main_tokenService) = ["j1"]
  ∧ NoDup (rejectedTokens
             (POST_rejects sample_decode
                [(1001, 1001, "Bearer alice.token"); (1002, 1002, "Bearer alice.token")]
                main_tokenService)).
Proof.
  assert (NoDup (rejectedTokens main_tokenService)) as Hnd by constructor.
  split; [exact Hnd|]. split; [by vm_compute|].
  exact (POST_reject_never_duplicates sample_decode _ main_tokenService Hnd).
Defined.

(** X29: log-out is final.  After [POST /reject] has answered 200 for a
    header, the middleware answers 401 to that header at every later time,
    also after any further requests to [POST /reject]: no handler behind the
    middleware is reached with it again. *)
Theorem POST_reject_then_unauthorized (decode : string → jwt.TokenString)
    (t t' : tokenService) (now1 now2 now3 : Z) (authorization : string)
    (response : Response) (requests : list (Z * Z * string)) :
  POST_reject decode t now1 now2 authorization = (t', Return response) →
  Code response = StatusOK → (now2 ≤ now3)%Z →
  ∃ err,
    AuthMiddleware decode (POST_rejects decode requests t') now3 authorization
    = Return (Aborted (JSON StatusUnauthorized (gin_H "error" (Error err)))).
Proof.
  intros Hpost Hok Hle. unfold POST_reject in Hpost.
  assert (∀ r : Response, Code r = StatusOK → Code r ≠ StatusUnauthorized
                          ∧ Code r ≠ StatusInternalServerError) as Hcode
    by (intros r ->; by split).
  destruct (Hcode _ Hok) as [H401 H500].
  destruct (AuthMiddleware decode t now1 authorization) as [[r|keys]|v] eqn:Hm;
    [| |done].
  { injection Hpost as <- <-. by apply AuthMiddleware_Aborted in Hm. }
  apply AuthMiddleware_Next in Hm as (raw & user & Hs & _ & _).
  unfold reject in Hpost. cbn zeta in Hpost.
  case_bool_decide as Hne; [injection Hpost as <- <-; by destruct H401|].
  rewrite Hs in Hpost.
  destruct (RejectToken t now2 (decode raw)) as [t1 [[e|]|v]] eqn:Hr;
    [injection Hpost as <- <-; by destruct H500| |done].
  injection Hpost as <- _.
  pose proof Hr as Hr'. apply RejectToken_returns_nil in Hr' as (jti & Ha & Hjti & Ht1).
  destruct (POST_rejects_grows decode requests t1) as [Hsec Hgrow].
  set (t2 := POST_rejects decode requests t1) in *.
  assert (∃ err, ValidateToken t2 now3 (decode raw) = Return (None, Some err)) as [err Hv].
  { destruct (expired now3 (decode raw)) eqn:Hexp.
    - apply ValidateToken_not_authentic. rewrite authentic_iff, MapClaims_Valid_None.
      intros (_ & Hexp' & _). unfold expired in Hexp. by rewrite Hexp' in Hexp.
    - exists Revoked. apply ValidateToken_Revoked_iff. split.
      + apply (authentic_same_secret t1); [done|].
        apply (authentic_same_secret t); [by subst t1|].
        by apply (authentic_later t now2).
      + exists jti. split; [done|]. apply Hgrow. subst t1. cbn.
        rewrite elem_of_app, list_elem_of_singleton. by right. }
  exists err. unfold AuthMiddleware. cbn zeta.
  rewrite bool_decide_eq_false_2 by done. rewrite Hs. cbn. by rewrite Hv.
Qed.

Lemma POST_reject_then_unauthorized_witness :
  POST_reject sample_decode main_tokenService 1001 1001 "Bearer alice.token"
  = (mkTokenService "secret" ["j1"], Return (JSON StatusOK (gin_H "message" "Token rejected")))
  ∧ Code (JSON StatusOK (gin_H "message" "Token rejected")) = StatusOK ∧ (1001 ≤ 1002)%Z
  ∧ ∃ err,
      AuthMiddleware sample_decode
        (POST_rejects sample_decode [] (mkTokenService "secret" ["j1"])) 1002
        "Bearer alice.token"
      = Return (Aborted (JSON StatusUnauthorized (gin_H "error" (Error err)))).
Proof.
  assert (POST_reject sample_decode main_tokenService 1001 1001 "Bearer alice.token"
          = (mkTokenService "secret" ["j1"],
             Return (JSON StatusOK (gin_H "message" "Token rejected")))) as H1
    by (by vm_compute).
  assert (Code (JSON StatusOK (gin_H "message" "Token rejected")) = StatusOK) as H2
    by reflexivity.
  assert (1001 ≤ 1002)%Z as H3 by lia.
  split; [exact H1|]. split; [exact H2|]. split; [exact H3|].
  exact (POST_reject_then_unauthorized sample_decode _ _ 1001 1001 1002 _ _ [] H1 H2 H3).
Defined.

(** X30: [login].  With a request body that binds, the handler answers 200
    with a token exactly when some stored user has the name and the password
    of the request; that token then verifies, for ten minutes and as long as
    its identifier is not rejected, to the ID and the name of such a user.
    Otherwise the handler answers 400 "invalid credentials": a failed login
    is a bad request, not a 401. *)
Theorem login_token_verifies (us : userService) (t : tokenService) (now : Z)
    (jti : string) (loginUserBody : LoginUserBody.t) (now' : Z) :
  (now' < now + 600)%Z → jti ∉ rejectedTokens t →
  (∃ user token,
     user ∈ users us
     ∧ Name user = LoginUserBody.Name loginUserBody
     ∧ Password user = LoginUserBody.Password loginUserBody
     ∧ login us t now jti (inr loginUserBody)
       = Return (JSON StatusOK (gin_H_token "token" token))
     ∧ ValidateToken t now' token
       = Return (Some (mkUser (ID user) (Name user) "" "" "" "" 0), None))
  ∨ ((∀ user, user ∈ users us →
        ¬ (Name user = LoginUserBody.Name loginUserBody
           ∧ Password user = LoginUserBody.Password loginUserBody))
     ∧ login us t now jti (inr loginUserBody)
       = Return (JSON StatusBadRequest (gin_H "message" "invalid credentials"))).
Proof.
  intros Hnow Hjti. unfold login.
  destruct (ValidateCredentials_matches us loginUserBody)
    as [(user & -> & Hin & Hn & Hp)|[-> Hnone]]; [left|by right].
  rewrite GenerateToken_eq. eexists user, _. repeat split; try done.
  rewrite (ValidateToken_authentic t now' _ jti (ID user) (Name user)).
  - by rewrite bool_decide_eq_false_2.
  - apply authentic_iff. split.
    + cbn. change (jwt.GetSigningMethod "HS256") with (Some jwt.SigningMethodHS256).
      cbn. by rewrite bool_decide_eq_true_2.
    + apply MapClaims_Valid_None. cbn.
      unfold jwt.VerifyExpiresAt, jwt.VerifyIssuedAt, jwt.VerifyNotBefore.
      simplify_map_eq. repeat case_bool_decide; done || lia.
  - cbn. by simplify_map_eq.
  - cbn. by simplify_map_eq.
  - cbn. by simplify_map_eq.
Qed.

Lemma login_token_verifies_witness :
  (1001 < 1000 + 600)%Z ∧ ("j1" ∉ rejectedTokens main_tokenService)
  ∧ ((∃ user token,
        user ∈ users NewUserService
        ∧ Name user = LoginUserBody.Name john_login
        ∧ Password user = LoginUserBody.Password john_login
        ∧ login NewUserService main_tokenService 1000 "j1" (inr john_login)
          = Return (JSON StatusOK (gin_H_token "token" token))
        ∧ ValidateToken main_tokenService 1001 token
          = Return (Some (mkUser (ID user) (Name user) "" "" "" "" 0), None))
     ∨ ((∀ user, user ∈ users NewUserService →
           ¬ (Name user = LoginUserBody.Name john_login
              ∧ Password user = LoginUserBody.Password john_login))
        ∧ login NewUserService main_tokenService 1000 "j1" (inr john_login)
          = Return (JSON StatusBadRequest (gin_H "message" "invalid credentials")))).
Proof.
  assert (1001 < 1000 + 600)%Z as H1 by lia.
  assert ("j1" ∉ rejectedTokens main_tokenService) as H2 by apply not_elem_of_nil.
  split; [exact H1|]. split; [exact H2|].
  exact (login_token_verifies NewUserService main_tokenService 1000 "j1" john_login 1001 H1 H2).
Defined.
